(** * Tailwind Class Extractor: classification, rewriting and edit collection

    A shallow embedding of the extension's command [extractTailwindClasses]
    and its helpers [separateClasses] and [ensureImportStatement], with the
    properties of the design document stated about them.

    Conventions of the embedding:
    - a JavaScript string is a [string] of ASCII code units; the white space
      class of the regular expression [\s] is restricted accordingly;
    - offsets into a text are natural numbers;
    - the object used as a map from prefix to bucket is an association list in
      property-insertion order (none of its keys is an array index, so
      [for ... in] enumerates them in that order);
    - the TypeScript parser and the editor are collaborators: the parser's
      result is a value of [Node], the editor is a record of capabilities. *)

From Stdlib Require Import List String Ascii Bool Arith Lia Permutation.
Import ListNotations.
Open Scope string_scope.

(** ** JavaScript string primitives used by the extension *)

Module JS.

(** The ASCII members of the class [\s]: TAB, LF, VT, FF, CR and SPACE. *)
Definition isWhiteSpace (c : ascii) : bool :=
  let n := nat_of_ascii c in
  Nat.eqb n 9 || Nat.eqb n 10 || Nat.eqb n 11 || Nat.eqb n 12
  || Nat.eqb n 13 || Nat.eqb n 32.

(** [splitFrom inRun cur s]: the pieces of [s] when [cur] is the piece being
    read and [inRun] tells that the previous character belonged to a
    separator.  A separator is a maximal run of white space; the piece open
    at the end of the text is always pushed. *)
Fixpoint splitFrom (inRun : bool) (cur : string) (s : string) : list string :=
  match s with
  | EmptyString => [cur]
  | String c r =>
      if isWhiteSpace c
      then if inRun then splitFrom true cur r
           else cur :: splitFrom true EmptyString r
      else splitFrom false (cur ++ String c EmptyString) r
  end.

(** [s.split(/\s+/)] *)
Definition split (s : string) : list string := splitFrom false EmptyString s.

(** [parts.join(sep)] *)
Definition join (sep : string) (parts : list string) : string :=
  String.concat sep parts.

(** [s.startsWith(p)] *)
Definition startsWith (s p : string) : bool := String.prefix p s.

(** [text.includes(pat)] *)
Fixpoint includes (text pat : string) : bool :=
  String.prefix pat text
  || match text with
     | EmptyString => false
     | String _ r => includes r pat
     end.

(** [text.substring(a, b)]: the arguments are swapped when [a > b]. *)
Definition substring (text : string) (a b : nat) : string :=
  String.substring (Nat.min a b) (Nat.max a b - Nat.min a b) text.

(** An object whose properties hold arrays of strings, in insertion order. *)
Definition Obj := list (string * list string).

(** [o[k]] *)
Fixpoint get (o : Obj) (k : string) : option (list string) :=
  match o with
  | [] => None
  | (k', v) :: r => if String.eqb k' k then Some v else get r k
  end.

(** [o[k] = v]: an existing property keeps its place, a new one goes last. *)
Fixpoint set (o : Obj) (k : string) (v : list string) : Obj :=
  match o with
  | [] => [(k, v)]
  | (k', v') :: r =>
      if String.eqb k' k then (k', v) :: r else (k', v') :: set r k v
  end.

(** [Object.keys(o)], which is also the order of [for (const k in o)]. *)
Definition keys (o : Obj) : list string := map fst o.

End JS.

(** ** The token classifier *)

Definition LF : string := String "010"%char EmptyString.
Definition DQ : string := String (ascii_of_nat 34) EmptyString.

Definition mediaPrefixes : list string :=
  ["mobile:"; "tablet:"; "desktop:"; "sm:"; "md:"; "lg:"; "xl:"; "2xl:"].

Record Separated : Type := mkSeparated
  { baseClasses : list string;
    mediaClassesMap : JS.Obj }.

(** [mediaPrefixes.find((p) => cls.startsWith(p))] *)
Definition findPrefix (cls : string) : option string :=
  find (fun p => JS.startsWith cls p) mediaPrefixes.

(** One turn of the loop of [separateClasses].  Every entry of the table is a
    non-empty string, so the test [if (prefix)] succeeds exactly when [find]
    returned an entry. *)
Definition separateStep (acc : Separated) (cls : string) : Separated :=
  match findPrefix cls with
  | Some prefix =>
      let m1 :=
        match JS.get (mediaClassesMap acc) prefix with
        | None => JS.set (mediaClassesMap acc) prefix []
        | Some _ => mediaClassesMap acc
        end in
      let m2 :=
        match JS.get m1 prefix with
        | Some bucket => JS.set m1 prefix (bucket ++ [cls])
        | None => m1
        end in
      mkSeparated (baseClasses acc) m2
  | None => mkSeparated (baseClasses acc ++ [cls]) (mediaClassesMap acc)
  end.

Definition separateClasses (classNames : list string) : Separated :=
  fold_left separateStep classNames (mkSeparated [] []).

(** The classifier of the earlier variant of the extension, which handles
    string literals only: one list for all the media classes. *)
Module LiteralOnly.

Definition separateStep (acc : list string * list string) (cls : string)
  : list string * list string :=
  if existsb (fun prefix => JS.startsWith cls prefix) mediaPrefixes
  then (fst acc, snd acc ++ [cls])%list
  else (fst acc ++ [cls], snd acc)%list.

Definition separateClasses (classNameText : string)
  : list string * list string :=
  let classes := JS.split classNameText in
  fold_left separateStep classes ([], []).

End LiteralOnly.

(** ** The rewriter: from a token list to the replacement text *)

(** [`"${classes.join(" ")}"`] *)
Definition quoted (classes : list string) : string :=
  DQ ++ JS.join " " classes ++ DQ.

(** The body of [for (const prefix in mediaClassesMap)]. *)
Definition pushGroup (m : JS.Obj) (classParts : list string) (prefix : string)
  : list string :=
  match JS.get m prefix with
  | Some classes =>
      if Nat.ltb 0 (List.length classes) then classParts ++ [quoted classes]
      else classParts
  | None => classParts
  end.

Definition classPartsOf (sep : Separated) : list string :=
  let classParts :=
    if Nat.ltb 0 (List.length (baseClasses sep)) then [quoted (baseClasses sep)]
    else [] in
  fold_left (pushGroup (mediaClassesMap sep)) (JS.keys (mediaClassesMap sep))
            classParts.

Definition indent8 : string := "        ".
Definition indent6 : string := "      ".

(** The template literal assigned to [newClassName]. *)
Definition newClassNameOf (classParts : list string) : string :=
  "{twJoin(" ++ LF ++ indent8
  ++ JS.join ("," ++ LF ++ indent8) classParts
  ++ LF ++ indent6 ++ ")}".

(** What the loop does with the tokens of one attribute: [None] is the
    [continue] taken when there are no media classes. *)
Definition rewriteClassNames (classNames : list string) : option string :=
  let sep := separateClasses classNames in
  if Nat.eqb (List.length (JS.keys (mediaClassesMap sep))) 0 then None
  else Some (newClassNameOf (classPartsOf sep)).

(** ** Syntax trees, as the TypeScript parser hands them over *)

(** [locStart] is [getStart(sourceFile)], [locEnd] is [getEnd()] and [locText]
    is [getText(sourceFile)].  The name of an attribute is an identifier or a
    namespaced name, a leaf as far as attributes are concerned: the tree keeps
    its location only.  An expression between
    braces and a call are kept with all the children that [forEachChild]
    visits: the token [...] when there is one and the expression; the callee,
    the token [?.] when there is one, the type arguments and the
    arguments. *)
Record Loc : Type := mkLoc
  { locStart : nat;
    locEnd : nat;
    locText : string }.

#[local] Unset Elimination Schemes.
Inductive Node : Type :=
| Identifier (l : Loc)
| StringLiteral (l : Loc) (text : string)
| JsxExpression (l : Loc) (dotDotDotToken : option Loc)
    (expression : option Node)
| CallExpression (l : Loc) (expression : Node) (questionDotToken : option Loc)
    (typeArguments : list Node) (arguments : list Node)
| JsxAttribute (l : Loc) (name : Loc) (initializer : option Node)
| OtherNode (l : Loc) (children : list Node).
#[local] Set Elimination Schemes.

Definition loc (n : Node) : Loc :=
  match n with
  | Identifier l | StringLiteral l _ | JsxExpression l _ _
  | CallExpression l _ _ _ _ | JsxAttribute l _ _ | OtherNode l _ => l
  end.

Definition getStart (n : Node) : nat := locStart (loc n).
Definition getEnd (n : Node) : nat := locEnd (loc n).
Definition getText (n : Node) : string := locText (loc n).

Definition optList {A : Type} (o : option A) : list A :=
  match o with Some x => [x] | None => [] end.

(** A token of the source as a node: a leaf. *)
Definition tokenNodes (token : option Loc) : list Node :=
  match token with Some t => [OtherNode t []] | None => [] end.

(** The children [ts.forEachChild] visits, in order. *)
Definition forEachChild (n : Node) : list Node :=
  match n with
  | Identifier _ | StringLiteral _ _ => []
  | JsxExpression _ d e => tokenNodes d ++ optList e
  | CallExpression _ f q targs args => f :: tokenNodes q ++ targs ++ args
  | JsxAttribute _ nm i => Identifier nm :: optList i
  | OtherNode _ cs => cs
  end.

(** The test guarding [classNameNodes.push(node)]. *)
Definition isClassNameAttribute (n : Node) : bool :=
  match n with
  | JsxAttribute _ nm (Some _) => String.eqb (locText nm) "className"
  | _ => false
  end.

(** [findClassNames(node)]: the nodes pushed, in the order of the pushes. *)
Fixpoint findClassNames (node : Node) : list Node :=
  (if isClassNameAttribute node then [node] else [])
  ++ match node with
     | Identifier _ | StringLiteral _ _ => []
     | JsxExpression _ _ e =>
         match e with Some x => findClassNames x | None => [] end
     | CallExpression _ f _ targs args =>
         findClassNames f
         ++ flat_map findClassNames targs ++ flat_map findClassNames args
     | JsxAttribute _ _ i =>
         match i with Some x => findClassNames x | None => [] end
     | OtherNode _ cs => flat_map findClassNames cs
     end.

(** The loop over the arguments of a [twJoin] call: [None] is
    [canProcess = false]. *)
Fixpoint collectArguments (args : list Node) (classNames : list string)
  : option (list string) :=
  match args with
  | [] => Some classNames
  | StringLiteral _ text :: rest =>
      collectArguments rest (classNames ++ JS.split text)
  | _ :: _ => None
  end.

(** The first half of the loop body: the tokens of the attribute and the
    span to replace, or [None] for each [continue]. *)
Definition extractClassNames (classNameNode : Node)
  : option (list string * nat * nat) :=
  match classNameNode with
  | JsxAttribute _ _ (Some initializer) =>
      match initializer with
      | StringLiteral _ text =>
          Some (JS.split text, getStart initializer, getEnd initializer)
      | JsxExpression _ _ (Some expression) =>
          match expression with
          | StringLiteral _ text =>
              Some (JS.split text, getStart initializer, getEnd initializer)
          | CallExpression _ callee _ _ args =>
              if String.eqb (getText callee) "twJoin" then
                match collectArguments args [] with
                | Some classNames =>
                    Some (classNames, getStart initializer, getEnd initializer)
                | None => None
                end
              else None
          | _ => None
          end
      | _ => None
      end
  | _ => None
  end.

(** The edit one attribute asks for, in document offsets:
    [(adjustedStart, adjustedEnd, newClassName)]. *)
Definition plannedEdit (offset : nat) (classNameNode : Node)
  : option (nat * nat * string) :=
  match extractClassNames classNameNode with
  | Some (classNames, start, end_) =>
      match rewriteClassNames classNames with
      | Some newClassName => Some (start + offset, end_ + offset, newClassName)
      | None => None
      end
  | None => None
  end.

Definition plannedEdits (offset : nat) (classNameNodes : list Node)
  : list (nat * nat * string) :=
  flat_map (fun n => optList (plannedEdit offset n)) classNameNodes.

(** ** The editor, its document and the edits handed back to it *)

(** A computation that may throw: [Throw message] carries [error.message]. *)
Inductive Result (A : Type) : Type :=
| Ok (value : A)
| Throw (message : string).
Arguments Ok {A} value.
Arguments Throw {A} message.

Definition bind {A B : Type} (r : Result A) (k : A -> Result B) : Result B :=
  match r with
  | Ok a => k a
  | Throw m => Throw m
  end.

Notation "x <- e ;; k" := (bind e (fun x => k))
  (at level 61, e at next level, right associativity).

Record Position : Type := mkPosition
  { line : nat;
    character : nat }.

Record Range : Type := mkRange
  { rangeStart : Position;
    rangeEnd : Position }.

Inductive TextEdit : Type :=
| Replace (range : Range) (newText : string)
| Insert (position : Position) (newText : string).

(** All edits go to the one document of the editor ([document.uri]); the
    workspace edit is the list of them in the order of the calls. *)
Definition WorkspaceEdit : Type := list TextEdit.

(** [workspaceEdit.size]: the number of documents with an edit. *)
Definition size (workspaceEdit : WorkspaceEdit) : nat :=
  match workspaceEdit with [] => 0 | _ :: _ => 1 end.

Record TextDocument : Type := mkTextDocument
  { docText : string;
    offsetAt : Position -> Result nat;
    positionAt : nat -> Result Position }.

Record Selection : Type := mkSelection
  { selStart : Position;
    selEnd : Position }.

Definition Position_eqb (p q : Position) : bool :=
  Nat.eqb (line p) (line q) && Nat.eqb (character p) (character q).

(** [selection.isEmpty] *)
Definition isEmpty (sel : Selection) : bool :=
  Position_eqb (selStart sel) (selEnd sel).

Record TextEditor : Type := mkTextEditor
  { document : TextDocument;
    selection : Selection }.

(** The two collaborators called with the results of the scan: the parser
    (for the file name of the document) and the workspace. *)
Record Host : Type := mkHost
  { createSourceFile : string -> Result Node;
    applyEdit : WorkspaceEdit -> Result bool }.

(** What the command asks of the editor, in order. *)
Inductive HostCall : Type :=
| ApplyEdit (workspaceEdit : WorkspaceEdit)
| ShowErrorMessage (message : string).

Definition importStatement : string :=
  "import { twJoin } from " ++ DQ ++ "tailwind-merge" ++ DQ ++ ";".

Definition ensureImportStatement (document : TextDocument)
    (workspaceEdit : WorkspaceEdit) : WorkspaceEdit :=
  let text := docText document in
  if negb (JS.includes text importStatement)
  then (workspaceEdit ++ [Insert (mkPosition 0 0) (importStatement ++ LF)])%list
  else workspaceEdit.

(** The second half of the loop body, for an attribute that is rewritten. *)
Definition replaceClassName (document : TextDocument)
    (workspaceEdit : WorkspaceEdit) (e : nat * nat * string)
  : Result WorkspaceEdit :=
  let '(adjustedStart, adjustedEnd, newClassName) := e in
  posStart <- positionAt document adjustedStart ;;
  posEnd <- positionAt document adjustedEnd ;;
  Ok (workspaceEdit ++ [Replace (mkRange posStart posEnd) newClassName])%list.

(** One turn of [for (const classNameNode of classNameNodes)]. *)
Definition loopBody (document : TextDocument) (offset : nat)
    (workspaceEdit : WorkspaceEdit) (classNameNode : Node)
  : Result WorkspaceEdit :=
  match plannedEdit offset classNameNode with
  | Some e => replaceClassName document workspaceEdit e
  | None => Ok workspaceEdit
  end.

Fixpoint forOf {A S : Type} (body : S -> A -> Result S) (xs : list A) (st : S)
  : Result S :=
  match xs with
  | [] => Ok st
  | x :: rest => st' <- body st x ;; forOf body rest st'
  end.

(** The text to scan and the offset of its first character in the document. *)
Definition selectSource (editor : TextEditor) : Result (string * nat) :=
  let document := document editor in
  let text := docText document in
  let selection := selection editor in
  if negb (isEmpty selection) then
    startOffset <- offsetAt document (selStart selection) ;;
    endOffset <- offsetAt document (selEnd selection) ;;
    Ok (JS.substring text startOffset endOffset, startOffset)
  else Ok (text, 0).

(** The [try] block up to the call of [applyEdit]. *)
Definition collectEdits (host : Host) (editor : TextEditor)
  : Result WorkspaceEdit :=
  let document := document editor in
  src <- selectSource editor ;;
  let '(sourceText, offset) := src in
  sourceFile <- createSourceFile host sourceText ;;
  let classNameNodes := findClassNames sourceFile in
  workspaceEdit <- forOf (loopBody document offset) classNameNodes [] ;;
  Ok (if Nat.ltb 0 (size workspaceEdit)
      then ensureImportStatement document workspaceEdit
      else workspaceEdit).

Definition errorPrefix : string :=
  "An error occurred while extracting Tailwind classes: ".

(** The command: the calls it makes on the editor, in order. *)
Definition extractTailwindClasses (host : Host)
    (activeTextEditor : option TextEditor) : list HostCall :=
  match activeTextEditor with
  | None => []
  | Some editor =>
      match collectEdits host editor with
      | Ok workspaceEdit =>
          match applyEdit host workspaceEdit with
          | Ok _ => [ApplyEdit workspaceEdit]
          | Throw m =>
              [ApplyEdit workspaceEdit; ShowErrorMessage (errorPrefix ++ m)]
          end
      | Throw m => [ShowErrorMessage (errorPrefix ++ m)]
      end
  end.

(** ** A reference editor, for running the command on concrete documents

    Lines end with LF.  [positionOf] and [offsetOf] follow
    [document.positionAt] and [document.offsetAt]; [applyEdits] follows
    [workspace.applyEdit] on one document: every edit is positioned in the
    text as it was before the batch. *)

Fixpoint positionFrom (text : string) (offset ln ch : nat) : Position :=
  match text, offset with
  | String c r, S k =>
      if Ascii.eqb c "010"%char then positionFrom r k (S ln) 0
      else positionFrom r k ln (S ch)
  | _, _ => mkPosition ln ch
  end.

Definition positionOf (text : string) (offset : nat) : Position :=
  positionFrom text offset 0 0.

Fixpoint offsetFrom (text : string) (ln ch : nat) : nat :=
  match text with
  | EmptyString => 0
  | String c r =>
      match ln, ch with
      | 0, 0 => 0
      | 0, S ch' =>
          if Ascii.eqb c "010"%char then 0 else S (offsetFrom r 0 ch')
      | S ln', _ =>
          S (offsetFrom r (if Ascii.eqb c "010"%char then ln' else ln) ch)
      end
  end.

Definition offsetOf (text : string) (p : Position) : nat :=
  offsetFrom text (line p) (character p).

Definition documentOf (text : string) : TextDocument :=
  mkTextDocument text
                 (fun p => Ok (offsetOf text p))
                 (fun o => Ok (positionOf text o)).

Definition editSpan (text : string) (e : TextEdit) : nat * nat * string :=
  match e with
  | Replace r t => (offsetOf text (rangeStart r), offsetOf text (rangeEnd r), t)
  | Insert p t => (offsetOf text p, offsetOf text p, t)
  end.

Fixpoint insertByStart (e : nat * nat * string) (es : list (nat * nat * string))
  : list (nat * nat * string) :=
  match es with
  | [] => [e]
  | e' :: r =>
      if Nat.ltb (fst (fst e)) (fst (fst e')) then e :: e' :: r
      else e' :: insertByStart e r
  end.

Fixpoint splice (text : string) (cursor : nat) (es : list (nat * nat * string))
  : string :=
  match es with
  | [] => JS.substring text cursor (Nat.max cursor (String.length text))
  | (s, e, t) :: r =>
      JS.substring text cursor (Nat.max cursor s) ++ t
      ++ splice text (Nat.max cursor e) r
  end.

Definition applyEdits (text : string) (workspaceEdit : WorkspaceEdit) : string :=
  splice text 0
         (fold_right insertByStart [] (map (editSpan text) workspaceEdit)).

(** ** Vocabulary of the statements *)

(** A token is a base class when no entry of the table is a prefix of it. *)
Definition isBase (cls : string) : bool :=
  match findPrefix cls with None => true | Some _ => false end.

(** A token belongs to the bucket of [p] when [p] is the entry found for it. *)
Definition inBucket (p cls : string) : bool :=
  match findPrefix cls with Some q => String.eqb q p | None => false end.

(** The prefixes of the prefixed tokens, one per token, in token order. *)
Definition prefixesOf (classNames : list string) : list string :=
  flat_map (fun cls => optList (findPrefix cls)) classNames.

(** The members of a list in the order of their first occurrence. *)
Fixpoint firsts (l : list string) : list string :=
  match l with
  | [] => []
  | x :: r => x :: filter (fun y => negb (String.eqb y x)) (firsts r)
  end.

(** [Subseq l1 l2]: [l1] is [l2] with some elements left out, the others in
    the same order. *)
Inductive Subseq {A : Type} : list A -> list A -> Prop :=
| Subseq_nil : Subseq [] []
| Subseq_skip x l1 l2 : Subseq l1 l2 -> Subseq l1 (x :: l2)
| Subseq_keep x l1 l2 : Subseq l1 l2 -> Subseq (x :: l1) (x :: l2).

(** The mapping the classifier is expected to build: one bucket per prefix
    met, in the order of first occurrence, holding the tokens found under
    that prefix in token order. *)
Definition bucketsOf (classNames : list string) : JS.Obj :=
  map (fun p => (p, filter (inBucket p) classNames))
      (firsts (prefixesOf classNames)).

Definition specOf (classNames : list string) : Separated :=
  mkSeparated (filter isBase classNames) (bucketsOf classNames).

(** The texts between the quotes of the arguments that are emitted. *)
Definition groupsOf (sep : Separated) : list string :=
  (if Nat.ltb 0 (List.length (baseClasses sep))
   then [JS.join " " (baseClasses sep)] else [])
  ++ map (fun kv => JS.join " " (snd kv)) (mediaClassesMap sep).

Definition literalText (n : Node) : option string :=
  match n with
  | StringLiteral _ text => Some text
  | _ => None
  end.

Definition isInsert (e : TextEdit) : bool :=
  match e with Insert _ _ => true | Replace _ _ => false end.

Definition appliesEdit (calls : list HostCall) : bool :=
  existsb (fun c => match c with ApplyEdit _ => true | _ => false end) calls.

(** The ways the [try] block can be left by an exception with message [m]
    before [applyEdit] is reached: reading the selection, parsing, or
    building the range of an edit after some edits were already collected. *)
Inductive FailsWith (host : Host) (editor : TextEditor) (m : string) : Prop :=
| FailsAtSelection :
    isEmpty (selection editor) = false ->
    (offsetAt (document editor) (selStart (selection editor)) = Throw m
     \/ (exists o, offsetAt (document editor) (selStart (selection editor)) = Ok o)
        /\ offsetAt (document editor) (selEnd (selection editor)) = Throw m) ->
    FailsWith host editor m
| FailsAtParse sourceText offset :
    selectSource editor = Ok (sourceText, offset) ->
    createSourceFile host sourceText = Throw m ->
    FailsWith host editor m
| FailsAtRewrite sourceText offset sourceFile collected s e t rest :
    selectSource editor = Ok (sourceText, offset) ->
    createSourceFile host sourceText = Ok sourceFile ->
    plannedEdits offset (findClassNames sourceFile)
    = (collected ++ (s, e, t) :: rest)%list ->
    Forall (fun x => (exists p, positionAt (document editor) (fst (fst x)) = Ok p)
                     /\ (exists p, positionAt (document editor) (snd (fst x)) = Ok p))
           collected ->
    (positionAt (document editor) s = Throw m
     \/ (exists p, positionAt (document editor) s = Ok p)
        /\ positionAt (document editor) e = Throw m) ->
    FailsWith host editor m.

(** The edit that stands for a planned one, once its range is built. *)
Definition realises (document : TextDocument) (edit : TextEdit)
    (planned : nat * nat * string) : Prop :=
  exists posStart posEnd,
    positionAt document (fst (fst planned)) = Ok posStart
    /\ positionAt document (snd (fst planned)) = Ok posEnd
    /\ edit = Replace (mkRange posStart posEnd) (snd planned).

(** What the parser guarantees about positions: the text of a node is the
    slice of the source between its start and its end, and the children of a
    node lie inside it, one after the other. *)
Definition locOk (sourceText : string) (l : Loc) : bool :=
  Nat.leb (locStart l) (locEnd l)
  && Nat.leb (locEnd l) (String.length sourceText)
  && String.eqb (locText l)
                (String.substring (locStart l) (locEnd l - locStart l)
                                  sourceText).

Fixpoint chained (lo : nat) (cs : list Node) (hi : nat) : bool :=
  match cs with
  | [] => Nat.leb lo hi
  | c :: r => Nat.leb lo (getStart c) && chained (getEnd c) r hi
  end.

Fixpoint wellFormed (sourceText : string) (n : Node) : bool :=
  locOk sourceText (loc n)
  && chained (getStart n) (forEachChild n) (getEnd n)
  && match n with
     | Identifier _ | StringLiteral _ _ => true
     | JsxExpression _ d e =>
         match d with Some t => locOk sourceText t | None => true end
         && match e with Some x => wellFormed sourceText x | None => true end
     | CallExpression _ f q targs args =>
         wellFormed sourceText f
         && match q with Some t => locOk sourceText t | None => true end
         && forallb (wellFormed sourceText) targs
         && forallb (wellFormed sourceText) args
     | JsxAttribute _ nm i =>
         locOk sourceText nm
         && match i with Some x => wellFormed sourceText x | None => true end
     | OtherNode _ cs => forallb (wellFormed sourceText) cs
     end.

(** Edits listed in document order, none reaching into the next. *)
Fixpoint inOrder (es : list (nat * nat * string)) : Prop :=
  match es with
  | [] => True
  | (s, e, _) :: r =>
      s <= e /\ Forall (fun e' => e <= fst (fst e')) r /\ inOrder r
  end.

(** An edit lies between two offsets. *)
Definition within (lo hi : nat) (x : nat * nat * string) : Prop :=
  lo <= fst (fst x) /\ snd (fst x) <= hi.

(** A token without a white space character. *)
Fixpoint noWhiteSpace (s : string) : bool :=
  match s with
  | EmptyString => true
  | String c r => negb (JS.isWhiteSpace c) && noWhiteSpace r
  end.

Definition isEmptyString (s : string) : bool :=
  match s with EmptyString => true | String _ _ => false end.

(** Every token but the last is non-empty. *)
Fixpoint nonEmptyButLast (l : list string) : bool :=
  match l with
  | [] => true
  | x :: r =>
      match r with
      | [] => true
      | _ :: _ => negb (isEmptyString x) && nonEmptyButLast r
      end
  end.

(** Only the first and the last token may be empty. *)
Definition emptyOnlyAtEnds (l : list string) : bool :=
  match l with
  | [] => true
  | _ :: r => nonEmptyButLast r
  end.

(** The tokens in the order in which the emitted arguments list them. *)
Definition regroup (classNames : list string) : list string :=
  (filter isBase classNames
   ++ List.concat (map (fun p => filter (inBucket p) classNames)
                       (firsts (prefixesOf classNames))))%list.

(** Induction on a tree, from the children that [forEachChild] visits. *)
Section NodeInduction.

Variable P : Node -> Prop.
Hypothesis step : forall n, Forall P (forEachChild n) -> P n.

Fixpoint Node_children_ind (n : Node) : P n :=
  step n
    (match n return Forall P (forEachChild n) with
     | Identifier _ | StringLiteral _ _ => Forall_nil P
     | JsxExpression _ d e =>
         proj2 (Forall_app P (tokenNodes d) (optList e))
           (conj
              (match d return Forall P (tokenNodes d) with
               | Some t =>
                   Forall_cons (OtherNode t [])
                     (step (OtherNode t []) (Forall_nil P)) (Forall_nil P)
               | None => Forall_nil P
               end)
              (match e return Forall P (optList e) with
               | Some x => Forall_cons x (Node_children_ind x) (Forall_nil P)
               | None => Forall_nil P
               end))
     | CallExpression _ f q targs args =>
         Forall_cons f (Node_children_ind f)
           (proj2 (Forall_app P (tokenNodes q) (targs ++ args))
              (conj
                 (match q return Forall P (tokenNodes q) with
                  | Some t =>
                      Forall_cons (OtherNode t [])
                        (step (OtherNode t []) (Forall_nil P)) (Forall_nil P)
                  | None => Forall_nil P
                  end)
                 (proj2 (Forall_app P targs args)
                    (conj
                       ((fix all (l : list Node) : Forall P l :=
                           match l with
                           | [] => Forall_nil P
                           | y :: r =>
                               Forall_cons y (Node_children_ind y) (all r)
                           end) targs)
                       ((fix all (l : list Node) : Forall P l :=
                           match l with
                           | [] => Forall_nil P
                           | y :: r =>
                               Forall_cons y (Node_children_ind y) (all r)
                           end) args)))))
     | JsxAttribute _ nm i =>
         Forall_cons (Identifier nm) (step (Identifier nm) (Forall_nil P))
           (match i return Forall P (optList i) with
            | Some x => Forall_cons x (Node_children_ind x) (Forall_nil P)
            | None => Forall_nil P
            end)
     | OtherNode _ cs =>
         (fix all (l : list Node) : Forall P l :=
            match l with
            | [] => Forall_nil P
            | y :: r => Forall_cons y (Node_children_ind y) (all r)
            end) cs
     end).

End NodeInduction.

(** ** The earlier variant of the command

    The command of [src/extension.ts]: the scan keeps the attributes whose
    value is a string literal, bare or between braces, and the media classes
    of an attribute go to one group. *)

Module LiteralOnlyCommand.

(** The two tests nested under the test of the attribute in [findClassNames]. *)
Definition isLiteralValue (initializer : Node) : bool :=
  match initializer with
  | StringLiteral _ _ => true
  | JsxExpression _ _ (Some (StringLiteral _ _)) => true
  | _ => false
  end.

Definition isPushed (n : Node) : bool :=
  match n with
  | JsxAttribute _ nm (Some initializer) =>
      String.eqb (locText nm) "className" && isLiteralValue initializer
  | _ => false
  end.

Fixpoint findClassNames (node : Node) : list Node :=
  (if isPushed node then [node] else [])
  ++ match node with
     | Identifier _ | StringLiteral _ _ => []
     | JsxExpression _ _ e =>
         match e with Some x => findClassNames x | None => [] end
     | CallExpression _ f _ targs args =>
         findClassNames f
         ++ flat_map findClassNames targs ++ flat_map findClassNames args
     | JsxAttribute _ _ i =>
         match i with Some x => findClassNames x | None => [] end
     | OtherNode _ cs => flat_map findClassNames cs
     end.

(** The first half of the loop body: the text of the attribute and the span
    to replace, or [None] for the [continue]. *)
Definition extractClassNameText (classNameNode : Node)
  : option (string * nat * nat) :=
  match classNameNode with
  | JsxAttribute _ _ (Some initializer) =>
      match initializer with
      | StringLiteral _ text =>
          Some (text, getStart initializer, getEnd initializer)
      | JsxExpression _ _ (Some (StringLiteral _ text)) =>
          Some (text, getStart initializer, getEnd initializer)
      | _ => None
      end
  | _ => None
  end.

Definition rewriteClassNameText (classNameText : string) : option string :=
  let '(baseClasses, mediaClasses) :=
    LiteralOnly.separateClasses classNameText in
  if Nat.eqb (List.length mediaClasses) 0 then None
  else
    let parts1 :=
      if Nat.ltb 0 (List.length baseClasses) then [quoted baseClasses]
      else [] in
    let parts2 :=
      if Nat.ltb 0 (List.length mediaClasses)
      then (parts1 ++ [quoted mediaClasses])%list
      else parts1 in
    Some (newClassNameOf parts2).

Definition plannedEdit (offset : nat) (classNameNode : Node)
  : option (nat * nat * string) :=
  match extractClassNameText classNameNode with
  | Some (classNameText, start, end_) =>
      match rewriteClassNameText classNameText with
      | Some newClassName => Some (start + offset, end_ + offset, newClassName)
      | None => None
      end
  | None => None
  end.

Definition plannedEdits (offset : nat) (classNameNodes : list Node)
  : list (nat * nat * string) :=
  flat_map (fun n => optList (plannedEdit offset n)) classNameNodes.

Definition loopBody (document : TextDocument) (offset : nat)
    (workspaceEdit : WorkspaceEdit) (classNameNode : Node)
  : Result WorkspaceEdit :=
  match plannedEdit offset classNameNode with
  | Some e => replaceClassName document workspaceEdit e
  | None => Ok workspaceEdit
  end.

Definition collectEdits (host : Host) (editor : TextEditor)
  : Result WorkspaceEdit :=
  let document := document editor in
  src <- selectSource editor ;;
  let '(sourceText, offset) := src in
  sourceFile <- createSourceFile host sourceText ;;
  let classNameNodes := findClassNames sourceFile in
  workspaceEdit <- forOf (loopBody document offset) classNameNodes [] ;;
  Ok (if Nat.ltb 0 (size workspaceEdit)
      then ensureImportStatement document workspaceEdit
      else workspaceEdit).

Definition extractTailwindClasses (host : Host)
    (activeTextEditor : option TextEditor) : list HostCall :=
  match activeTextEditor with
  | None => []
  | Some editor =>
      match collectEdits host editor with
      | Ok workspaceEdit =>
          match applyEdit host workspaceEdit with
          | Ok _ => [ApplyEdit workspaceEdit]
          | Throw m =>
              [ApplyEdit workspaceEdit; ShowErrorMessage (errorPrefix ++ m)]
          end
      | Throw m => [ShowErrorMessage (errorPrefix ++ m)]
      end
  end.

End LiteralOnlyCommand.

(** ** More vocabulary *)

(** The nodes of a tree, each before its children, the children in the
    order of [forEachChild]. *)
Fixpoint subnodes (node : Node) : list Node :=
  node
  :: match node with
     | Identifier _ | StringLiteral _ _ => []
     | JsxExpression _ d e =>
         tokenNodes d ++ match e with Some x => subnodes x | None => [] end
     | CallExpression _ f q targs args =>
         subnodes f ++ tokenNodes q
         ++ flat_map subnodes targs ++ flat_map subnodes args
     | JsxAttribute _ nm i =>
         Identifier nm :: match i with Some x => subnodes x | None => [] end
     | OtherNode _ cs => flat_map subnodes cs
     end.

(** A text without its white space characters. *)
Fixpoint stripWhiteSpace (s : string) : string :=
  match s with
  | EmptyString => EmptyString
  | String c r =>
      if JS.isWhiteSpace c then stripWhiteSpace r
      else String c (stripWhiteSpace r)
  end.

(** The bucket read from the mapping, empty when the key is missing. *)
Definition bucketAt (sep : Separated) (p : string) : list string :=
  match JS.get (mediaClassesMap sep) p with
  | Some bucket => bucket
  | None => []
  end.

(** The groups emitted for [classNames], each split again, in order. *)
Definition groupTokens (classNames : list string) : list string :=
  flat_map JS.split (groupsOf (separateClasses classNames)).

(** No entry of a table is the beginning of another entry. *)
Definition prefixFree (table : list string) : bool :=
  forallb (fun p =>
             forallb (fun q => String.eqb p q || negb (String.prefix p q)) table)
          table.

Definition isStringLiteral (n : Node) : bool :=
  match n with StringLiteral _ _ => true | _ => false end.

(** ** Concrete documents and their syntax trees *)

Definition slice (sourceText : string) (a b : nat) : Loc :=
  mkLoc a b (JS.substring sourceText a b).

(** A parser known on a few texts only. *)
Definition tableParser (table : list (string * Node)) (sourceText : string)
  : Result Node :=
  match find (fun e => String.eqb (fst e) sourceText) table with
  | Some e => Ok (snd e)
  | None => Throw "Unexpected source text"
  end.

(** A one-line component, as in the first scenario of the design document. *)
Definition doc1Text : string :=
  "<div className=" ++ DQ ++ "p-4 sm:p-8 text-center" ++ DQ ++ " />".

Definition attribute1 : Node :=
  let at_ := slice doc1Text in
  JsxAttribute (at_ 5 39) (at_ 5 14)
    (Some (StringLiteral (at_ 15 39) "p-4 sm:p-8 text-center")).

Definition ast1 : Node :=
  let at_ := slice doc1Text in
  OtherNode (at_ 0 42)
    [OtherNode (at_ 0 42)
       [Identifier (at_ 1 4); OtherNode (at_ 5 39) [attribute1]]].

(** The replacement text of the first scenario. *)
Definition replacement1 : string :=
  "{twJoin(" ++ LF
  ++ indent8 ++ DQ ++ "p-4 text-center" ++ DQ ++ "," ++ LF
  ++ indent8 ++ DQ ++ "sm:p-8" ++ DQ ++ LF
  ++ indent6 ++ ")}".

(** The same component once rewritten, below the import line. *)
Definition doc2Text : string :=
  importStatement ++ LF
  ++ "<div className={twJoin(" ++ LF
  ++ indent8 ++ DQ ++ "p-4 text-center" ++ DQ ++ "," ++ LF
  ++ indent8 ++ DQ ++ "sm:p-8" ++ DQ ++ LF
  ++ indent6 ++ ")} />".

Definition attribute2 : Node :=
  let at_ := slice doc2Text in
  JsxAttribute (at_ 46 117) (at_ 46 55)
    (Some (JsxExpression (at_ 56 117) None
       (Some (CallExpression (at_ 57 116) (Identifier (at_ 57 63)) None []
          [StringLiteral (at_ 73 90) "p-4 text-center";
           StringLiteral (at_ 100 108) "sm:p-8"])))).

Definition ast2 : Node :=
  let at_ := slice doc2Text in
  OtherNode (at_ 0 120)
    [OtherNode (at_ 0 40) [];
     OtherNode (at_ 41 120)
       [Identifier (at_ 42 45); OtherNode (at_ 46 117) [attribute2]]].

(** Two attributes, the second with an attribute nested in its value. *)
Definition doc4Text : string :=
  "<a className=" ++ DQ ++ "sm:x y" ++ DQ
  ++ " id={<b className=" ++ DQ ++ "md:z" ++ DQ ++ "/>}/>".

Definition ast4 : Node :=
  let at_ := slice doc4Text in
  OtherNode (at_ 0 50)
    [OtherNode (at_ 0 50)
       [Identifier (at_ 1 2);
        OtherNode (at_ 3 48)
          [JsxAttribute (at_ 3 21) (at_ 3 12)
             (Some (StringLiteral (at_ 13 21) "sm:x y"));
           JsxAttribute (at_ 22 48) (at_ 22 24)
             (Some (JsxExpression (at_ 25 48) None
                (Some (OtherNode (at_ 26 47)
                   [Identifier (at_ 27 28);
                    OtherNode (at_ 29 45)
                      [JsxAttribute (at_ 29 45) (at_ 29 38)
                         (Some (StringLiteral (at_ 39 45) "md:z"))]]))))]]].

(** The component of [doc1Text] on the second line of a larger document. *)
Definition doc3Text : string := "const a = 1;" ++ LF ++ doc1Text.

Definition demoHost : Host :=
  mkHost (tableParser [(doc1Text, ast1); (doc2Text, ast2)])
         (fun _ => Ok true).

Definition brokenHost : Host :=
  mkHost (fun _ => Throw "Debug Failure.") (fun _ => Ok true).

Definition noSelection : Selection :=
  mkSelection (mkPosition 0 0) (mkPosition 0 0).

Definition editor1 : TextEditor := mkTextEditor (documentOf doc1Text) noSelection.
Definition editor2 : TextEditor := mkTextEditor (documentOf doc2Text) noSelection.
Definition editor3 : TextEditor :=
  mkTextEditor (documentOf doc3Text)
               (mkSelection (mkPosition 1 0) (mkPosition 1 42)).

(** The edits the command hands over for [editor1] and for [editor3]. *)
Definition importEdit : TextEdit :=
  Insert (mkPosition 0 0) (importStatement ++ LF).

Definition batch1 : WorkspaceEdit :=
  [Replace (mkRange (mkPosition 0 15) (mkPosition 0 39)) replacement1;
   importEdit].

Definition batch3 : WorkspaceEdit :=
  [Replace (mkRange (mkPosition 1 15) (mkPosition 1 39)) replacement1;
   importEdit].

Definition batch2 : WorkspaceEdit :=
  [Replace (mkRange (mkPosition 1 15) (mkPosition 4 8)) replacement1].

(** A document whose positions past offset 20 cannot be built. *)
Definition shortDocument : TextDocument :=
  mkTextDocument doc1Text
                 (fun p => Ok (offsetOf doc1Text p))
                 (fun o => if Nat.ltb o 20 then Ok (positionOf doc1Text o)
                           else Throw "Illegal offset").

(** An attribute whose [twJoin] arguments carry white space at their ends. *)
Definition paddedReplacement (base : string) : string :=
  "{twJoin(" ++ LF
  ++ indent8 ++ DQ ++ base ++ DQ ++ "," ++ LF
  ++ indent8 ++ DQ ++ "sm:c" ++ DQ ++ LF
  ++ indent6 ++ ")}".

Definition paddedCall : Node :=
  let l := mkLoc 0 0 EmptyString in
  JsxAttribute l (mkLoc 0 0 "className")
    (Some (JsxExpression l None
       (Some (CallExpression l (Identifier (mkLoc 0 0 "twJoin")) None []
          [StringLiteral l "a "; StringLiteral l " b sm:c"])))).

(** ** More vocabulary and documents *)

Definition startsWithWhiteSpace (s : string) : bool :=
  match s with
  | EmptyString => false
  | String c _ => JS.isWhiteSpace c
  end.

Fixpoint endsWithWhiteSpace (s : string) : bool :=
  match s with
  | EmptyString => false
  | String c r =>
      match r with
      | EmptyString => JS.isWhiteSpace c
      | String _ _ => endsWithWhiteSpace r
      end
  end.

(** The value of an attribute is a string literal, bare or between braces. *)
Definition hasLiteralValue (n : Node) : bool :=
  match n with
  | JsxAttribute _ _ (Some initializer) =>
      LiteralOnlyCommand.isLiteralValue initializer
  | _ => false
  end.

(** The second scenario of the design document: no media class. *)
Definition doc5Text : string :=
  "<div className=" ++ DQ ++ "flex" ++ DQ ++ " />".

Definition ast5 : Node :=
  let at_ := slice doc5Text in
  OtherNode (at_ 0 24)
    [OtherNode (at_ 0 24)
       [Identifier (at_ 1 4);
        OtherNode (at_ 5 21)
          [JsxAttribute (at_ 5 21) (at_ 5 14)
             (Some (StringLiteral (at_ 15 21) "flex"))]]].

Definition demoHost5 : Host :=
  mkHost (tableParser [(doc5Text, ast5)]) (fun _ => Ok true).

Definition editor5 : TextEditor := mkTextEditor (documentOf doc5Text) noSelection.

(** The type arguments of the call that is the value of the attribute hold
    no attribute that the scan takes; so it is for a value that is not a
    call and for a call without type arguments. *)
Definition hasFlatValue (n : Node) : bool :=
  match n with
  | JsxAttribute _ _
      (Some (JsxExpression _ _ (Some (CallExpression _ _ _ targs _)))) =>
      match flat_map findClassNames targs with
      | [] => true
      | _ :: _ => false
      end
  | _ => true
  end.

(** A call of twJoin with a type argument: a type literal whose member has a
    computed name, the name being an element with a className attribute. *)
Definition doc6Text : string :=
  "<a className={twJoin<{[<b className=" ++ DQ ++ "sm:x" ++ DQ
  ++ "/>]: 1}>(" ++ DQ ++ "md:y" ++ DQ ++ ")} />".

Definition innerAttribute6 : Node :=
  let at_ := slice doc6Text in
  JsxAttribute (at_ 26 42) (at_ 26 35) (Some (StringLiteral (at_ 36 42) "sm:x")).

Definition outerAttribute6 : Node :=
  let at_ := slice doc6Text in
  JsxAttribute (at_ 3 59) (at_ 3 12)
    (Some (JsxExpression (at_ 13 59) None
       (Some (CallExpression (at_ 14 58) (Identifier (at_ 14 20)) None
          [OtherNode (at_ 21 49)
             [OtherNode (at_ 22 48)
                [OtherNode (at_ 22 45)
                   [OtherNode (at_ 23 44)
                      [Identifier (at_ 24 25);
                       OtherNode (at_ 26 42) [innerAttribute6]]];
                 OtherNode (at_ 47 48) []]]]
          [StringLiteral (at_ 51 57) "md:y"])))).

Definition ast6 : Node :=
  let at_ := slice doc6Text in
  OtherNode (at_ 0 62)
    [OtherNode (at_ 0 62)
       [Identifier (at_ 1 2); OtherNode (at_ 3 59) [outerAttribute6]]].

Definition demoHost6 : Host :=
  mkHost (tableParser [(doc6Text, ast6)]) (fun _ => Ok true).

Definition editor6 : TextEditor := mkTextEditor (documentOf doc6Text) noSelection.

(** ** Reading the emitted text back

    The emitted text is read again by the TypeScript parser on the next run.
    The reader below follows the parser on a text in the layout of
    [newClassNameOf] whose string literals hold no backslash, no double
    quote and no line break: for such a literal the text that the parser
    gives ([arg.text]) is what stands between the quotes.  On any other text
    it gives [None]: what the parser makes of an escape or of a stray quote
    is not modelled. *)

Definition isDoubleQuote (c : ascii) : bool := Nat.eqb (nat_of_ascii c) 34.
Definition isBackslash (c : ascii) : bool := Nat.eqb (nat_of_ascii c) 92.
Definition isLineBreak (c : ascii) : bool :=
  Nat.eqb (nat_of_ascii c) 10 || Nat.eqb (nat_of_ascii c) 13.

(** A token holds no double quote and no backslash: between double quotes
    it stands for itself. *)
Fixpoint needsNoEscape (s : string) : bool :=
  match s with
  | EmptyString => true
  | String c r => negb (isDoubleQuote c) && negb (isBackslash c) && needsNoEscape r
  end.

(** A text that a string literal can hold as it is. *)
Fixpoint readable (s : string) : bool :=
  match s with
  | EmptyString => true
  | String c r =>
      negb (isDoubleQuote c) && negb (isBackslash c) && negb (isLineBreak c)
      && readable r
  end.

Inductive ReadState : Type :=
| InLiteral (cur : string)
| AfterLiteral
| Expect (pending : string) (thenLiteral : bool).

Definition afterExpected (pending : string) (thenLiteral : bool) : ReadState :=
  match pending with
  | EmptyString =>
      if thenLiteral then InLiteral EmptyString else Expect EmptyString false
  | String _ _ => Expect pending thenLiteral
  end.

Fixpoint readArguments (st : ReadState) (s : string) (acc : list string)
  : option (list string) :=
  match s with
  | EmptyString =>
      match st with
      | Expect EmptyString false => Some acc
      | _ => None
      end
  | String c r =>
      match st with
      | InLiteral cur =>
          if isDoubleQuote c then readArguments AfterLiteral r (acc ++ [cur])
          else if isBackslash c || isLineBreak c then None
          else readArguments (InLiteral (cur ++ String c EmptyString)) r acc
      | AfterLiteral =>
          if Ascii.eqb c ","%char
          then readArguments (Expect (LF ++ indent8 ++ DQ) true) r acc
          else if Ascii.eqb c "010"%char
          then readArguments (Expect (indent6 ++ ")}") false) r acc
          else None
      | Expect (String p ps) b =>
          if Ascii.eqb c p then readArguments (afterExpected ps b) r acc
          else None
      | Expect EmptyString _ => None
      end
  end.

(** The texts of the arguments of an emitted call. *)
Definition readEmitted (text : string) : option (list string) :=
  readArguments (Expect ("{twJoin(" ++ LF ++ indent8 ++ DQ) true) text [].

(** The emitted text after the closing quote of an argument, before the
    arguments [groups] that remain. *)
Fixpoint emittedRest (groups : list string) : string :=
  match groups with
  | [] => LF ++ indent6 ++ ")}"
  | g :: r => "," ++ (LF ++ indent8 ++ DQ) ++ g ++ DQ ++ emittedRest r
  end.

(** The value that the next run finds where [newClassName] was written: a
    call of twJoin between braces, without type arguments, whose arguments
    are the string literals read from the text. *)
Definition readsBack (newClassName : string) (value : Node) : Prop :=
  exists l lc callee args texts,
    value = JsxExpression l None
              (Some (CallExpression lc callee None [] args))
    /\ getText callee = "twJoin"
    /\ readEmitted newClassName = Some texts
    /\ map literalText args = map Some texts.

(** The tokens that the next run reads where the replacement text of
    [classNames] was written. *)
Definition readBackTokens (classNames : list string) : option (list string) :=
  match rewriteClassNames classNames with
  | Some newClassName =>
      match readEmitted newClassName with
      | Some texts => Some (flat_map JS.split texts)
      | None => None
      end
  | None => None
  end.

(** * Properties *)

Local Open Scope list_scope.

(** ** Objects as ordered maps *)

Section ObjFacts.

Variable f : string -> list string.

Let tab (ks : list string) : JS.Obj := map (fun p => (p, f p)) ks.

Lemma get_app_last (o : JS.Obj) (k : string) (v : list string) :
  JS.get o k = None -> JS.get (o ++ [(k, v)]) k = Some v.
Proof.
  induction o as [|[k' v'] o IH]; simpl.
  - now rewrite String.eqb_refl.
  - destruct (String.eqb k' k); [discriminate | exact IH].
Qed.

Lemma set_new (o : JS.Obj) (k : string) (v : list string) :
  JS.get o k = None -> JS.set o k v = o ++ [(k, v)].
Proof.
  induction o as [|[k' v'] o IH]; simpl; [reflexivity|].
  destruct (String.eqb k' k); [discriminate|].
  intros H. now rewrite IH.
Qed.

Lemma set_app_last (o : JS.Obj) (k : string) (v v' : list string) :
  JS.get o k = None -> JS.set (o ++ [(k, v)]) k v' = o ++ [(k, v')].
Proof.
  induction o as [|[k' w] o IH]; simpl.
  - now rewrite String.eqb_refl.
  - destruct (String.eqb k' k); [discriminate|].
    intros H. now rewrite IH.
Qed.

Lemma get_tab_in (ks : list string) (q : string) :
  In q ks -> JS.get (tab ks) q = Some (f q).
Proof.
  induction ks as [|k ks IH]; simpl; [tauto|].
  destruct (String.eqb_spec k q) as [->|Hne]; [reflexivity|].
  intros [H|H]; [contradiction | auto].
Qed.

Lemma get_tab_out (ks : list string) (q : string) :
  ~ In q ks -> JS.get (tab ks) q = None.
Proof.
  induction ks as [|k ks IH]; simpl; [reflexivity|].
  destruct (String.eqb_spec k q) as [->|Hne]; [tauto|].
  intros H. apply IH. tauto.
Qed.

Lemma set_tab (ks : list string) (q : string) (v : list string) :
  NoDup ks -> In q ks ->
  JS.set (tab ks) q v
  = map (fun p => (p, if String.eqb p q then v else f p)) ks.
Proof.
  induction ks as [|k ks IH]; simpl; [tauto|].
  intros Hnd Hin. inversion Hnd as [|? ? Hk Hnd']; subst.
  destruct (String.eqb_spec k q) as [->|Hne].
  - f_equal. apply map_ext_in. intros p Hp.
    destruct (String.eqb_spec p q) as [->|]; [contradiction | reflexivity].
  - f_equal. apply IH; [assumption|]. destruct Hin; [contradiction | assumption].
Qed.

End ObjFacts.

(** ** First occurrences *)

Lemma firsts_In (l : list string) (x : string) : In x (firsts l) <-> In x l.
Proof.
  induction l as [|y l IH]; simpl; [tauto|].
  rewrite filter_In, IH. split.
  - intros [H|[H _]]; auto.
  - intros [H|H]; auto.
    destruct (String.eqb_spec x y) as [->|Hne]; auto.
Qed.

Lemma firsts_NoDup (l : list string) : NoDup (firsts l).
Proof.
  induction l as [|y l IH]; simpl; constructor.
  - rewrite filter_In. intros [_ H]. now rewrite String.eqb_refl in H.
  - now apply NoDup_filter.
Qed.

Lemma firsts_snoc (l : list string) (q : string) :
  firsts (l ++ [q])
  = if in_dec string_dec q l then firsts l else firsts l ++ [q].
Proof.
  induction l as [|y l IH]; simpl; [reflexivity|].
  rewrite IH.
  destruct (string_dec y q) as [->|Hne].
  - destruct (in_dec string_dec q l); [reflexivity|].
    rewrite filter_app. simpl. rewrite String.eqb_refl. simpl.
    now rewrite app_nil_r.
  - destruct (in_dec string_dec q l) as [Hin|Hout].
    + destruct (in_dec string_dec q (y :: l)) as [|n]; [reflexivity|].
      exfalso. apply n. now right.
    + destruct (in_dec string_dec q (y :: l)) as [[H|H]|_];
        [congruence | contradiction |].
      rewrite filter_app. simpl.
      destruct (String.eqb_spec q y) as [->|_]; [congruence | reflexivity].
  Qed.

(** ** The classifier computes [specOf] *)

Lemma prefixesOf_app (a b : list string) :
  prefixesOf (a ++ b) = prefixesOf a ++ prefixesOf b.
Proof. unfold prefixesOf. apply flat_map_app. Qed.

Lemma inBucket_true (p cls : string) :
  inBucket p cls = true <-> findPrefix cls = Some p.
Proof.
  unfold inBucket. destruct (findPrefix cls) as [q|]; [|split; discriminate].
  destruct (String.eqb_spec q p) as [->|Hne]; split; try congruence; auto.
Qed.

Lemma isBase_true (cls : string) : isBase cls = true <-> findPrefix cls = None.
Proof.
  unfold isBase. destruct (findPrefix cls); split; congruence.
Qed.

Lemma prefixesOf_In (l : list string) (p : string) :
  In p (prefixesOf l) <-> exists cls, In cls l /\ findPrefix cls = Some p.
Proof.
  unfold prefixesOf. rewrite in_flat_map. split.
  - intros (cls & Hin & Hp). exists cls. split; [assumption|].
    destruct (findPrefix cls); simpl in Hp; [|contradiction].
    destruct Hp as [->|[]]. reflexivity.
  - intros (cls & Hin & Hp). exists cls. split; [assumption|].
    rewrite Hp. now left.
Qed.

Lemma filter_inBucket_out (l : list string) (q : string) :
  ~ In q (prefixesOf l) -> filter (inBucket q) l = [].
Proof.
  intros Hout. induction l as [|c l IH]; simpl; [reflexivity|].
  destruct (inBucket q c) eqn:Hc.
  - exfalso. apply Hout. apply prefixesOf_In. exists c. split; [now left|].
    now apply inBucket_true.
  - apply IH. intros H. apply Hout. apply prefixesOf_In.
    apply prefixesOf_In in H. destruct H as (x & Hx & Hp).
    exists x. split; [now right | assumption].
Qed.

Lemma separateStep_spec (acc : list string) (cls : string) :
  separateStep (specOf acc) cls = specOf (acc ++ [cls]).
Proof.
  assert (Hbk : forall p, filter (inBucket p) (acc ++ [cls])
                          = filter (inBucket p) acc
                            ++ (if inBucket p cls then [cls] else [])).
  { intros p. rewrite filter_app. simpl. now destruct (inBucket p cls). }
  unfold separateStep.
  change (mediaClassesMap (specOf acc)) with (bucketsOf acc).
  change (baseClasses (specOf acc)) with (filter isBase acc).
  destruct (findPrefix cls) as [q|] eqn:Hc; unfold specOf; f_equal.
  - rewrite filter_app. simpl. unfold isBase. rewrite Hc. now rewrite app_nil_r.
  - assert (Hpre : prefixesOf (acc ++ [cls]) = prefixesOf acc ++ [q]).
    { rewrite prefixesOf_app. f_equal. unfold prefixesOf. simpl.
      now rewrite Hc. }
    assert (Hin : forall p, inBucket p cls = String.eqb q p).
    { intros p. unfold inBucket. now rewrite Hc. }
    unfold bucketsOf. rewrite Hpre, firsts_snoc.
    destruct (in_dec string_dec q (prefixesOf acc)) as [Hq|Hq].
    + apply firsts_In in Hq.
      rewrite !(get_tab_in (fun p => filter (inBucket p) acc) _ _ Hq).
      rewrite set_tab by (auto using firsts_NoDup).
      apply map_ext. intros p. f_equal. rewrite Hbk, Hin.
      rewrite (String.eqb_sym p q).
      destruct (String.eqb_spec q p) as [->|Hne];
        [reflexivity | now rewrite app_nil_r].
    + assert (Hq' : ~ In q (firsts (prefixesOf acc))) by now rewrite firsts_In.
      pose proof (get_tab_out (fun p => filter (inBucket p) acc) _ _ Hq') as Hg.
      rewrite Hg, (set_new _ _ _ Hg), (get_app_last _ _ _ Hg).
      rewrite (set_app_last _ _ _ _ Hg), map_app. simpl.
      rewrite Hbk, Hin, String.eqb_refl, (filter_inBucket_out _ _ Hq). simpl.
      f_equal. apply map_ext_in. intros p Hp. f_equal. rewrite Hbk, Hin.
      destruct (String.eqb_spec q p) as [->|_]; [contradiction|].
      now rewrite app_nil_r.
  - rewrite filter_app. simpl. unfold isBase. now rewrite Hc.
  - unfold bucketsOf. rewrite prefixesOf_app.
    replace (prefixesOf [cls]) with (@nil string)
      by (unfold prefixesOf; simpl; now rewrite Hc).
    rewrite app_nil_r. apply map_ext. intros p. f_equal. rewrite Hbk.
    replace (inBucket p cls) with false by (unfold inBucket; now rewrite Hc).
    now rewrite app_nil_r.
Qed.

Lemma separateClasses_spec (classNames : list string) :
  separateClasses classNames = specOf classNames.
Proof.
  unfold separateClasses.
  change (mkSeparated [] []) with (specOf []).
  change classNames with ([] ++ classNames) at 2.
  generalize (@nil string) as acc.
  induction classNames as [|c l IH]; intros acc; simpl.
  - now rewrite app_nil_r.
  - rewrite separateStep_spec, IH, <- app_assoc. reflexivity.
Qed.

(** ** Partition, order of the buckets, order of the emitted groups *)

Lemma Subseq_filter {A : Type} (f : A -> bool) (l : list A) :
  Subseq (filter f l) l.
Proof.
  induction l as [|x l IH]; simpl; [constructor|].
  destruct (f x); now constructor.
Qed.

Lemma keys_bucketsOf (l : list string) :
  JS.keys (bucketsOf l) = firsts (prefixesOf l).
Proof.
  unfold JS.keys, bucketsOf. rewrite map_map. simpl. apply map_id.
Qed.

Lemma bucketsOf_In (l : list string) (p : string) (bucket : list string) :
  In (p, bucket) (bucketsOf l) ->
  bucket = filter (inBucket p) l /\ In p (prefixesOf l).
Proof.
  unfold bucketsOf. rewrite in_map_iff. intros (q & Heq & Hq).
  inversion Heq; subst. split; [reflexivity | now apply firsts_In].
Qed.

Lemma bucket_nonempty (l : list string) (p : string) :
  In p (prefixesOf l) -> filter (inBucket p) l <> [].
Proof.
  intros Hp Hnil. apply prefixesOf_In in Hp. destruct Hp as (cls & Hin & Hc).
  assert (H : In cls (filter (inBucket p) l)).
  { apply filter_In. split; [assumption | now apply inBucket_true]. }
  rewrite Hnil in H. contradiction.
Qed.

Lemma buckets_cons_prefixed (ks : list string) (q c : string) (r : list string) :
  NoDup ks -> In q ks -> findPrefix c = Some q ->
  Permutation (List.concat (map (fun p => filter (inBucket p) (c :: r)) ks))
              (c :: List.concat (map (fun p => filter (inBucket p) r) ks)).
Proof.
  intros Hnd Hin Hc.
  set (F := fun p => filter (inBucket p) (c :: r)).
  set (G := fun p => filter (inBucket p) r).
  assert (HF : forall p, F p = if String.eqb q p then c :: G p else G p).
  { intros p. unfold F, G. simpl. unfold inBucket at 1. now rewrite Hc. }
  clearbody F G.
  induction ks as [|k ks IH]; cbn [map List.concat]; [contradiction|].
  inversion Hnd as [|? ? Hk Hnd']; subst. rewrite HF.
  destruct (String.eqb_spec q k) as [->|Hne].
  - cbn [app]. apply perm_skip. apply Permutation_app_head.
    replace (map F ks) with (map G ks); [reflexivity|].
    apply map_ext_in. intros p Hp. rewrite HF.
    destruct (String.eqb_spec k p) as [->|_]; [contradiction | reflexivity].
  - destruct Hin as [->|Hin]; [congruence|].
    rewrite (IH Hnd' Hin). symmetry. apply Permutation_middle.
Qed.

Lemma buckets_cons_base (ks : list string) (c : string) (r : list string) :
  findPrefix c = None ->
  map (fun p => filter (inBucket p) (c :: r)) ks
  = map (fun p => filter (inBucket p) r) ks.
Proof.
  intros Hc. apply map_ext. intros p. simpl. unfold inBucket at 1.
  now rewrite Hc.
Qed.

Lemma partition_perm (ks l : list string) :
  NoDup ks -> (forall p, In p (prefixesOf l) -> In p ks) ->
  Permutation
    (filter isBase l ++ List.concat (map (fun p => filter (inBucket p) l) ks)) l.
Proof.
  intros Hnd. induction l as [|c r IH]; intros Hks.
  - simpl. induction ks as [|k ks IHk]; simpl; [constructor|].
    apply IHk; [now inversion Hnd | intros p []].
  - assert (Hr : forall p, In p (prefixesOf r) -> In p ks).
    { intros p Hp. apply Hks.
      change (c :: r) with ([c] ++ r). rewrite prefixesOf_app.
      apply in_or_app. now right. }
    specialize (IH Hr).
    change (filter isBase (c :: r))
      with (if isBase c then c :: filter isBase r else filter isBase r).
    unfold isBase at 1.
    destruct (findPrefix c) as [q|] eqn:Hc.
    + rewrite buckets_cons_prefixed with (q := q); try assumption.
      * rewrite <- Permutation_middle. now apply perm_skip.
      * apply Hks. apply prefixesOf_In. exists c. split; [now left | assumption].
    + rewrite buckets_cons_base by assumption. cbn [app]. now apply perm_skip.
Qed.

(** C2.  The classifier splits its input into the base list and the buckets:
    together they hold the input tokens with their multiplicities, each list
    keeps the order of the input, the base list holds the tokens without a
    recognised prefix, the bucket of a prefix holds tokens of that prefix
    only, and no prefix has two buckets. *)
Theorem separateClasses_partition (classNames : list string) :
  let sep := separateClasses classNames in
  Permutation (baseClasses sep ++ List.concat (map snd (mediaClassesMap sep)))
              classNames
  /\ Subseq (baseClasses sep) classNames
  /\ (forall p bucket,
         In (p, bucket) (mediaClassesMap sep) -> Subseq bucket classNames)
  /\ (forall cls, In cls (baseClasses sep) -> findPrefix cls = None)
  /\ (forall p bucket cls,
         In (p, bucket) (mediaClassesMap sep) -> In cls bucket ->
         findPrefix cls = Some p)
  /\ NoDup (JS.keys (mediaClassesMap sep)).
Proof.
  rewrite separateClasses_spec. simpl. repeat split.
  - unfold bucketsOf. rewrite map_map. simpl.
    apply partition_perm; [apply firsts_NoDup|].
    intros p. now rewrite firsts_In.
  - apply Subseq_filter.
  - intros p bucket H. apply bucketsOf_In in H. destruct H as [-> _].
    apply Subseq_filter.
  - intros cls H. apply filter_In in H. now apply isBase_true.
  - intros p bucket cls H Hc. apply bucketsOf_In in H. destruct H as [-> _].
    apply filter_In in Hc. now apply inBucket_true.
  - rewrite keys_bucketsOf. apply firsts_NoDup.
Qed.

Lemma isBase_existsb (cls : string) :
  existsb (fun prefix => JS.startsWith cls prefix) mediaPrefixes
  = negb (isBase cls).
Proof.
  unfold isBase, findPrefix.
  induction mediaPrefixes as [|p ps IH]; simpl; [reflexivity|].
  destruct (JS.startsWith cls p); [reflexivity | exact IH].
Qed.

(** The earlier variant splits the tokens in two: the base classes and the
    media classes, each in token order. *)
Lemma literalOnly_separateClasses (classNameText : string) :
  LiteralOnly.separateClasses classNameText
  = (filter isBase (JS.split classNameText),
     filter (fun cls => negb (isBase cls)) (JS.split classNameText)).
Proof.
  unfold LiteralOnly.separateClasses. cbv zeta.
  change (@nil string, @nil string)
    with (filter isBase [], filter (fun cls => negb (isBase cls)) []).
  change (JS.split classNameText) with ([] ++ JS.split classNameText) at 2 3.
  generalize (@nil string) as acc.
  induction (JS.split classNameText) as [|c l IH]; intros acc; simpl.
  - now rewrite app_nil_r.
  - unfold LiteralOnly.separateStep at 2. rewrite isBase_existsb. simpl.
    replace (acc ++ c :: l) with ((acc ++ [c]) ++ l)
      by now rewrite <- app_assoc.
    rewrite <- IH. f_equal. rewrite !filter_app. simpl.
    destruct (isBase c); simpl; now rewrite app_nil_r.
Qed.

Lemma filter_eq_app_cons {A : Type} (f : A -> bool) (l k1 k2 : list A) (p : A) :
  filter f l = k1 ++ p :: k2 ->
  exists l1 l2, l = l1 ++ p :: l2 /\ filter f l1 = k1 /\ filter f l2 = k2.
Proof.
  revert k1. induction l as [|x l IH]; intros k1 H; simpl in H.
  - destruct k1; discriminate.
  - destruct (f x) eqn:Hx.
    + destruct k1 as [|y k1]; simpl in H; inversion H; subst.
      * exists [], l. simpl. auto.
      * destruct (IH _ H2) as (l1 & l2 & -> & H1 & H3).
        exists (y :: l1), l2. simpl. rewrite Hx, H1. auto.
    + destruct (IH _ H) as (l1 & l2 & -> & H1 & H3).
      exists (x :: l1), l2. simpl. rewrite Hx. auto.
Qed.

Lemma firsts_split (l k1 k2 : list string) (p : string) :
  firsts l = k1 ++ p :: k2 ->
  exists a b, l = a ++ p :: b /\ (forall x, In x a -> In x k1).
Proof.
  revert k1 k2. induction l as [|y l IH]; intros k1 k2 H; simpl in H.
  - destruct k1; discriminate.
  - destruct k1 as [|z k1]; simpl in H; inversion H; subst.
    + exists [], l. simpl. split; [reflexivity | tauto].
    + apply filter_eq_app_cons in H2.
      destruct H2 as (L1 & L2 & HL & H1 & _).
      destruct (IH _ _ HL) as (a & b & -> & Ha).
      exists (z :: a), b. split; [reflexivity|].
      intros x [<-|Hx]; [now left|].
      destruct (String.eqb_spec x z) as [->|Hne]; [now left | right].
      rewrite <- H1. apply filter_In. split; [now apply Ha|].
      now destruct (String.eqb_spec x z).
Qed.

Lemma prefixesOf_split (classNames a b : list string) (p : string) :
  prefixesOf classNames = a ++ p :: b ->
  exists l1 t l2,
    classNames = l1 ++ t :: l2 /\ prefixesOf l1 = a /\ findPrefix t = Some p.
Proof.
  revert a. induction classNames as [|c l IH]; intros a H.
  - destruct a; discriminate.
  - change (c :: l) with ([c] ++ l) in H. rewrite prefixesOf_app in H.
    unfold prefixesOf at 1 in H. simpl in H.
    destruct (findPrefix c) as [q|] eqn:Hc; simpl in H.
    + destruct a as [|z a]; simpl in H; inversion H; subst.
      * exists [], c, l. auto.
      * destruct (IH _ H2) as (l1 & t & l2 & -> & H1 & Ht).
        exists (c :: l1), t, l2. split; [reflexivity|]. split; [|assumption].
        change (c :: l1) with ([c] ++ l1). rewrite prefixesOf_app.
        unfold prefixesOf at 1. simpl. rewrite Hc. simpl. now rewrite H1.
    + destruct (IH _ H) as (l1 & t & l2 & -> & H1 & Ht).
      exists (c :: l1), t, l2. split; [reflexivity|]. split; [|assumption].
      change (c :: l1) with ([c] ++ l1). rewrite prefixesOf_app.
      unfold prefixesOf at 1. simpl. rewrite Hc. simpl. assumption.
Qed.

Lemma pushGroups_tab (f : string -> list string) (all ks : list string)
    (classParts : list string) :
  (forall p, In p ks -> In p all /\ f p <> []) ->
  fold_left (pushGroup (map (fun p => (p, f p)) all)) ks classParts
  = classParts ++ map (fun p => quoted (f p)) ks.
Proof.
  revert classParts. induction ks as [|k ks IH]; intros classParts H; simpl.
  - now rewrite app_nil_r.
  - destruct (H k (or_introl eq_refl)) as [Hin Hne].
    rewrite IH by (intros p Hp; apply H; now right).
    unfold pushGroup. rewrite (get_tab_in f _ _ Hin).
    destruct (f k) as [|x xs] eqn:Hfk; [congruence|]. simpl.
    now rewrite <- app_assoc.
Qed.

Lemma classPartsOf_spec (classNames : list string) :
  classPartsOf (separateClasses classNames)
  = map (fun g => (DQ ++ g ++ DQ)%string)
        (groupsOf (separateClasses classNames)).
Proof.
  rewrite separateClasses_spec. unfold classPartsOf, groupsOf.
  cbn [baseClasses mediaClassesMap specOf].
  rewrite keys_bucketsOf. unfold bucketsOf at 1.
  rewrite pushGroups_tab.
  - rewrite map_app. f_equal.
    + destruct (Nat.ltb 0 (List.length (filter isBase classNames)));
        reflexivity.
    + unfold bucketsOf. rewrite !map_map. reflexivity.
  - intros p Hp. split; [assumption|].
    apply bucket_nonempty. now apply firsts_In.
Qed.

(** C4.  The keys of the mapping are the prefixes met, in the order of their
    first occurrence in the token list: every prefixed token standing before
    the first token of a bucket belongs to a bucket placed earlier.  The loop
    that builds the arguments follows the mapping in that order. *)
Theorem buckets_in_first_occurrence_order (classNames : list string) :
  let sep := separateClasses classNames in
  JS.keys (mediaClassesMap sep) = firsts (prefixesOf classNames)
  /\ (forall k1 p k2,
         JS.keys (mediaClassesMap sep) = k1 ++ p :: k2 ->
         exists l1 t l2,
           classNames = l1 ++ t :: l2
           /\ findPrefix t = Some p
           /\ (forall u q, In u l1 -> findPrefix u = Some q -> In q k1))
  /\ classPartsOf sep
     = (if Nat.ltb 0 (List.length (baseClasses sep))
        then [quoted (baseClasses sep)] else [])
       ++ map (fun kv => quoted (snd kv)) (mediaClassesMap sep).
Proof.
  cbv zeta. split; [|split].
  - rewrite separateClasses_spec. apply keys_bucketsOf.
  - rewrite separateClasses_spec. cbn [mediaClassesMap specOf].
    rewrite keys_bucketsOf. intros k1 p k2 H.
    destruct (firsts_split _ _ _ _ H) as (a & b & Hab & Ha).
    destruct (prefixesOf_split _ _ _ _ Hab) as (l1 & t & l2 & -> & H1 & Ht).
    exists l1, t, l2. split; [reflexivity|]. split; [assumption|].
    intros u q Hu Hq. apply Ha. rewrite <- H1. apply prefixesOf_In.
    exists u. auto.
  - rewrite classPartsOf_spec. unfold groupsOf. rewrite map_app, map_map.
    f_equal.
    destruct (Nat.ltb 0 (List.length (baseClasses (separateClasses classNames))));
      reflexivity.
Qed.

(** ** The replacement text *)

Lemma rewriteClassNames_spec (classNames : list string) :
  rewriteClassNames classNames
  = match mediaClassesMap (separateClasses classNames) with
    | [] => None
    | _ :: _ =>
        Some (newClassNameOf
                (map (fun g => (DQ ++ g ++ DQ)%string)
                     (groupsOf (separateClasses classNames))))
    end.
Proof.
  unfold rewriteClassNames. rewrite classPartsOf_spec.
  now destruct (mediaClassesMap (separateClasses classNames)).
Qed.

Lemma buckets_nonempty (classNames : list string) :
  Forall (fun kv => snd kv <> []) (mediaClassesMap (separateClasses classNames)).
Proof.
  rewrite separateClasses_spec. apply Forall_forall. intros [p bucket] H.
  apply bucketsOf_In in H. destruct H as [-> Hp]. simpl.
  now apply bucket_nonempty.
Qed.

(** C3.  When the classification of an attribute's tokens has at least one
    bucket, the edit planned for the attribute replaces its value by a call
    of twJoin whose arguments are, in order, the base tokens joined by single
    spaces (this argument is there exactly when there are base tokens) and,
    for each bucket in the order of the mapping, its tokens joined by single
    spaces; every argument stands between double quotes. *)
Theorem replacement_is_grouped_call (offset : nat) (classNameNode : Node)
    (classNames : list string) (start end_ : nat) :
  extractClassNames classNameNode = Some (classNames, start, end_) ->
  mediaClassesMap (separateClasses classNames) <> [] ->
  let sep := separateClasses classNames in
  let arguments :=
    match baseClasses sep with
    | [] => []
    | _ :: _ => [JS.join " " (baseClasses sep)]
    end
    ++ map (fun kv => JS.join " " (snd kv)) (mediaClassesMap sep) in
  plannedEdit offset classNameNode
  = Some (start + offset, end_ + offset,
          ("{twJoin(" ++ LF ++ indent8
           ++ JS.join ("," ++ LF ++ indent8)
                      (map (fun g => DQ ++ g ++ DQ) arguments)
           ++ LF ++ indent6 ++ ")}")%string).
Proof.
  intros Hx Hm. cbv zeta. unfold plannedEdit. rewrite Hx.
  rewrite rewriteClassNames_spec.
  destruct (mediaClassesMap (separateClasses classNames)) as [|kv m] eqn:Em;
    [congruence|].
  unfold groupsOf, newClassNameOf. rewrite Em.
  destruct (baseClasses (separateClasses classNames)); reflexivity.
Qed.

Lemma replacement_is_grouped_call_witness :
  extractClassNames attribute1
  = Some (JS.split "p-4 sm:p-8 text-center", 15, 39)
  /\ plannedEdit 0 attribute1 = Some (15, 39, replacement1).
Proof.
  split; [reflexivity|].
  apply (replacement_is_grouped_call
           0 attribute1 (JS.split "p-4 sm:p-8 text-center") 15 39);
    [reflexivity | vm_compute; discriminate].
Defined.

(** C10.  A replacement text always carries at least one argument: it is
    emitted only when the mapping has a bucket, no bucket of the mapping is
    empty, and the arguments are one per bucket plus one for the base tokens
    when there are any. *)
Theorem replacement_has_an_argument (classNames : list string)
    (newClassName : string) :
  rewriteClassNames classNames = Some newClassName ->
  let sep := separateClasses classNames in
  mediaClassesMap sep <> []
  /\ Forall (fun kv => snd kv <> []) (mediaClassesMap sep)
  /\ exists part parts,
       classPartsOf sep = part :: parts
       /\ newClassName = newClassNameOf (part :: parts)
       /\ Forall (fun x => exists g, x = (DQ ++ g ++ DQ)%string) (part :: parts)
       /\ List.length (part :: parts)
          = (match baseClasses sep with [] => 0 | _ :: _ => 1 end)
            + List.length (mediaClassesMap sep).
Proof.
  intros H. cbv zeta. pose proof (rewriteClassNames_spec classNames) as Hs.
  rewrite H in Hs. rewrite classPartsOf_spec.
  destruct (mediaClassesMap (separateClasses classNames)) as [|kv m] eqn:Em;
    [discriminate|].
  split; [discriminate|]. split; [rewrite <- Em; apply buckets_nonempty|].
  inversion Hs as [Hn]. clear Hs.
  assert (Hg : exists g gs, groupsOf (separateClasses classNames) = g :: gs
                 /\ List.length (g :: gs)
                    = (match baseClasses (separateClasses classNames) with
                       | [] => 0 | _ :: _ => 1 end) + List.length (kv :: m)).
  { unfold groupsOf. rewrite Em.
    destruct (baseClasses (separateClasses classNames)); simpl;
      eexists; eexists; split; try reflexivity; simpl;
      now rewrite length_map. }
  destruct Hg as (g & gs & Hg & Hlen). rewrite Hg.
  exists (DQ ++ g ++ DQ)%string, (map (fun g => (DQ ++ g ++ DQ)%string) gs).
  split; [reflexivity|]. split; [reflexivity|]. split.
  - change (Forall (fun x => exists g0, x = (DQ ++ g0 ++ DQ)%string)
                   (map (fun g => (DQ ++ g ++ DQ)%string) (g :: gs))).
    apply Forall_forall. intros x Hx. apply in_map_iff in Hx.
    destruct Hx as (g0 & <- & _). now exists g0.
  - simpl in Hlen |- *. rewrite length_map. exact Hlen.
Qed.

Lemma replacement_has_an_argument_witness :
  rewriteClassNames (JS.split "p-4 sm:p-8 text-center") = Some replacement1
  /\ mediaClassesMap (separateClasses (JS.split "p-4 sm:p-8 text-center")) <> [].
Proof.
  split; [reflexivity|].
  apply (replacement_has_an_argument
           (JS.split "p-4 sm:p-8 text-center") replacement1).
  reflexivity.
Defined.

(** ** The loop over the attributes and the collected edits *)

Lemma forOf_loopBody (document : TextDocument) (offset : nat)
    (nodes : list Node) (workspaceEdit : WorkspaceEdit) :
  forOf (loopBody document offset) nodes workspaceEdit
  = forOf (replaceClassName document) (plannedEdits offset nodes) workspaceEdit.
Proof.
  revert workspaceEdit. induction nodes as [|n nodes IH]; intros we; simpl;
    [reflexivity|].
  unfold loopBody at 1, plannedEdits. simpl. fold (plannedEdits offset nodes).
  destruct (plannedEdit offset n) as [e|]; simpl.
  - destruct (replaceClassName document we e); simpl; [apply IH | reflexivity].
  - apply IH.
Qed.

Lemma replaceClassName_Ok (document : TextDocument) (we we' : WorkspaceEdit)
    (x : nat * nat * string) :
  replaceClassName document we x = Ok we' ->
  exists edit, realises document edit x /\ we' = we ++ [edit].
Proof.
  destruct x as [[s e] t]. unfold replaceClassName, realises. simpl.
  destruct (positionAt document s) as [p1|]; simpl; [|discriminate].
  destruct (positionAt document e) as [p2|]; simpl; [|discriminate].
  intros H. inversion H. exists (Replace (mkRange p1 p2) t).
  split; [exists p1, p2; auto | reflexivity].
Qed.

Lemma forOf_replace_Ok (document : TextDocument)
    (es : list (nat * nat * string)) (we we' : WorkspaceEdit) :
  forOf (replaceClassName document) es we = Ok we' ->
  exists replaces,
    we' = we ++ replaces /\ Forall2 (realises document) replaces es.
Proof.
  revert we. induction es as [|x es IH]; intros we H; simpl in H.
  - inversion H. exists []. rewrite app_nil_r. auto.
  - destruct (replaceClassName document we x) as [we1|] eqn:E; simpl in H;
      [|discriminate].
    apply replaceClassName_Ok in E. destruct E as (edit & Hr & ->).
    destruct (IH _ H) as (rs & -> & Hrs).
    exists (edit :: rs). rewrite <- app_assoc. simpl. auto.
Qed.

Lemma forOf_replace_Throw (document : TextDocument)
    (collected rest : list (nat * nat * string)) (s e : nat) (t m : string)
    (we : WorkspaceEdit) :
  Forall (fun x => (exists p, positionAt document (fst (fst x)) = Ok p)
                   /\ (exists p, positionAt document (snd (fst x)) = Ok p))
         collected ->
  (positionAt document s = Throw m
   \/ (exists p, positionAt document s = Ok p)
      /\ positionAt document e = Throw m) ->
  forOf (replaceClassName document) (collected ++ (s, e, t) :: rest) we
  = Throw m.
Proof.
  intros Hc Hf. revert we. induction Hc as [|[[s' e'] t'] c [[p1 H1] [p2 H2]] _ IH];
    intros we; simpl.
  - destruct Hf as [Hf|[[p Hp] Hf]].
    + now rewrite Hf.
    + rewrite Hp. simpl. now rewrite Hf.
  - simpl in H1, H2. rewrite H1. simpl. rewrite H2. simpl. apply IH.
Qed.

Lemma realises_is_replace (document : TextDocument) (replaces : list TextEdit)
    (es : list (nat * nat * string)) :
  Forall2 (realises document) replaces es ->
  Forall (fun e => isInsert e = false) replaces.
Proof.
  induction 1 as [|r x rs es (p1 & p2 & _ & _ & ->) _ IH]; constructor;
    [reflexivity | assumption].
Qed.

Lemma collectEdits_Ok (host : Host) (editor : TextEditor) (we : WorkspaceEdit) :
  collectEdits host editor = Ok we ->
  exists sourceText offset sourceFile replaces,
    selectSource editor = Ok (sourceText, offset)
    /\ createSourceFile host sourceText = Ok sourceFile
    /\ Forall2 (realises (document editor)) replaces
               (plannedEdits offset (findClassNames sourceFile))
    /\ we = match replaces with
            | [] => []
            | _ :: _ => ensureImportStatement (document editor) replaces
            end.
Proof.
  unfold collectEdits.
  destruct (selectSource editor) as [[sourceText offset]|]; simpl;
    [|discriminate].
  destruct (createSourceFile host sourceText) as [sourceFile|] eqn:Ep; simpl;
    [|discriminate].
  rewrite forOf_loopBody.
  destruct (forOf _ _ _) as [rs|] eqn:E; simpl; [|discriminate].
  intros H. inversion H. clear H.
  apply forOf_replace_Ok in E. destruct E as (replaces & -> & Hr).
  exists sourceText, offset, sourceFile, replaces. simpl.
  repeat split; try assumption. now destruct replaces.
Qed.

Lemma Forall2_map_right {A B C : Type} (R : A -> C -> Prop) (f : B -> C)
    (l : list A) (l' : list B) :
  Forall2 R l (map f l') -> Forall2 (fun x y => R x (f y)) l l'.
Proof.
  revert l. induction l' as [|y l' IH]; intros l H; inversion H; subst;
    constructor; auto.
Qed.

Lemma plannedEdits_shift (offset : nat) (nodes : list Node) :
  plannedEdits offset nodes
  = map (fun x => (fst (fst x) + offset, snd (fst x) + offset, snd x))
        (plannedEdits 0 nodes).
Proof.
  unfold plannedEdits. induction nodes as [|n nodes IH]; simpl; [reflexivity|].
  rewrite map_app, IH. f_equal. unfold plannedEdit.
  destruct (extractClassNames n) as [[[cls s] e]|]; [|reflexivity].
  destruct (rewriteClassNames cls); [|reflexivity].
  simpl. now rewrite !Nat.add_0_r.
Qed.

Lemma plannedEdit_span (n : Node) (s e : nat) (t : string) :
  plannedEdit 0 n = Some (s, e, t) ->
  exists l nm init,
    n = JsxAttribute l nm (Some init) /\ s = getStart init /\ e = getEnd init.
Proof.
  unfold plannedEdit.
  destruct (extractClassNames n) as [[[cls s'] e']|] eqn:Ex; [|discriminate].
  destruct (rewriteClassNames cls); [|discriminate].
  intros H. inversion H; subst. clear H. rewrite !Nat.add_0_r.
  destruct n as [| | | |l nm [init|]|]; try discriminate.
  exists l, nm, init. split; [reflexivity|].
  unfold extractClassNames in Ex.
  destruct init as [|l1 txt|l1 d1 [ex|]| | |]; try discriminate.
  - inversion Ex. auto.
  - destruct ex as [|l2 txt| |l2 callee q targs args| |]; try discriminate.
    + inversion Ex. auto.
    + destruct (String.eqb (getText callee) "twJoin"); [|discriminate].
      destruct (collectArguments args []); [|discriminate].
      inversion Ex. auto.
Qed.

(** C6.  The batch is the list of replacements followed by the insertion of
    the import line, which is there exactly when there is a replacement and
    the text of the whole document does not contain the import line; the
    insertion is at line 0, character 0, of the import line and a line feed. *)
Theorem import_inserted_iff_needed (host : Host) (editor : TextEditor)
    (workspaceEdit : WorkspaceEdit) :
  collectEdits host editor = Ok workspaceEdit ->
  exists replaces,
    Forall (fun e => isInsert e = false) replaces
    /\ (replaces <> []
        /\ JS.includes (docText (document editor)) importStatement = false ->
        workspaceEdit
        = replaces ++ [Insert (mkPosition 0 0) (importStatement ++ LF)%string])
    /\ (replaces = []
        \/ JS.includes (docText (document editor)) importStatement = true ->
        workspaceEdit = replaces).
Proof.
  intros H. apply collectEdits_Ok in H.
  destruct H as (sourceText & offset & sourceFile & replaces & _ & _ & Hr & ->).
  exists replaces. split; [eapply realises_is_replace; eassumption|].
  unfold ensureImportStatement. split.
  - intros [Hne Hinc]. rewrite Hinc. simpl. destruct replaces; congruence.
  - intros [->|Hinc]; [reflexivity|]. rewrite Hinc. simpl.
    now destruct replaces.
Qed.

Lemma import_inserted_iff_needed_witness :
  collectEdits demoHost editor1 = Ok batch1
  /\ exists replaces,
       Forall (fun e => isInsert e = false) replaces
       /\ (replaces <> []
           /\ JS.includes (docText (document editor1)) importStatement = false ->
           batch1 = replaces ++ [importEdit])
       /\ (replaces = []
           \/ JS.includes (docText (document editor1)) importStatement = true ->
           batch1 = replaces).
Proof.
  split; [reflexivity|].
  apply (import_inserted_iff_needed demoHost editor1 batch1). reflexivity.
Defined.

(** C7.  The replacements of a batch stand, in order, for the edits planned
    on the scanned text, each with its start and its end moved by the offset
    of the scanned text in the document: the offset of the start of the
    selection when there is one, 0 when the whole document is scanned.  The
    span of a planned edit in the scanned text is the span of the
    attribute's value. *)
Theorem edits_shifted_by_selection_start (host : Host) (editor : TextEditor)
    (workspaceEdit : WorkspaceEdit) :
  collectEdits host editor = Ok workspaceEdit ->
  exists sourceText offset sourceFile,
    selectSource editor = Ok (sourceText, offset)
    /\ (isEmpty (selection editor) = true ->
        offset = 0 /\ sourceText = docText (document editor))
    /\ (isEmpty (selection editor) = false ->
        offsetAt (document editor) (selStart (selection editor)) = Ok offset)
    /\ createSourceFile host sourceText = Ok sourceFile
    /\ Forall2
         (fun edit inText =>
            realises (document editor) edit
                     (fst (fst inText) + offset, snd (fst inText) + offset,
                      snd inText))
         (filter (fun e => negb (isInsert e)) workspaceEdit)
         (plannedEdits 0 (findClassNames sourceFile))
    /\ (forall n s e t,
           plannedEdit 0 n = Some (s, e, t) ->
           exists l nm init,
             n = JsxAttribute l nm (Some init)
             /\ s = getStart init /\ e = getEnd init).
Proof.
  intros H. apply collectEdits_Ok in H.
  destruct H as (sourceText & offset & sourceFile & replaces & Hs & Hp & Hr & ->).
  exists sourceText, offset, sourceFile.
  split; [assumption|]. split; [|split; [|split; [assumption|split]]].
  - intros He. unfold selectSource in Hs. rewrite He in Hs. simpl in Hs.
    inversion Hs. auto.
  - intros He. unfold selectSource in Hs. rewrite He in Hs. simpl in Hs.
    destruct (offsetAt _ (selStart _)) as [o|]; simpl in Hs; [|discriminate].
    destruct (offsetAt _ (selEnd _)) as [o'|]; simpl in Hs; [|discriminate].
    inversion Hs. reflexivity.
  - match goal with
    | |- Forall2 _ ?x _ => assert (Hf : x = replaces)
    end.
    { assert (Hid : filter (fun e => negb (isInsert e)) replaces = replaces).
      { apply realises_is_replace in Hr. induction Hr as [|x l Hx _ IH];
          simpl; [reflexivity|]. now rewrite Hx, IH. }
      destruct replaces as [|r rs]; [reflexivity|].
      unfold ensureImportStatement.
      destruct (negb (JS.includes _ _)); [|exact Hid].
      rewrite filter_app, Hid. cbn [filter isInsert negb]. apply app_nil_r. }
    rewrite Hf. rewrite plannedEdits_shift in Hr.
    apply Forall2_map_right in Hr. exact Hr.
  - apply plannedEdit_span.
Qed.

Lemma edits_shifted_by_selection_start_witness :
  collectEdits demoHost editor3 = Ok batch3
  /\ exists sourceText offset sourceFile,
       selectSource editor3 = Ok (sourceText, offset)
       /\ (isEmpty (selection editor3) = true ->
           offset = 0 /\ sourceText = docText (document editor3))
       /\ (isEmpty (selection editor3) = false ->
           offsetAt (document editor3) (selStart (selection editor3)) = Ok offset)
       /\ createSourceFile demoHost sourceText = Ok sourceFile
       /\ Forall2
            (fun edit inText =>
               realises (document editor3) edit
                        (fst (fst inText) + offset, snd (fst inText) + offset,
                         snd inText))
            (filter (fun e => negb (isInsert e)) batch3)
            (plannedEdits 0 (findClassNames sourceFile))
       /\ (forall n s e t,
              plannedEdit 0 n = Some (s, e, t) ->
              exists l nm init,
                n = JsxAttribute l nm (Some init)
                /\ s = getStart init /\ e = getEnd init).
Proof.
  split; [reflexivity|].
  apply (edits_shifted_by_selection_start demoHost editor3 batch3). reflexivity.
Defined.

Example selection_offset_is_13 :
  selectSource editor3 = Ok (doc1Text, 13)
  /\ plannedEdits 0 (findClassNames ast1) = [(15, 39, replacement1)]
  /\ positionAt (document editor3) (15 + 13) = Ok (mkPosition 1 15)
  /\ positionAt (document editor3) (39 + 13) = Ok (mkPosition 1 39).
Proof. repeat split. Qed.

(** ** Exceptions *)

Lemma FailsWith_collectEdits (host : Host) (editor : TextEditor) (m : string) :
  FailsWith host editor m -> collectEdits host editor = Throw m.
Proof.
  intros [He Hf | sourceText offset Hs Hp
          | sourceText offset sourceFile collected s e t rest Hs Hp Hpl Hc Hf];
    unfold collectEdits.
  - unfold selectSource. rewrite He. simpl.
    destruct Hf as [Hf|[[o Ho] Hf]].
    + now rewrite Hf.
    + rewrite Ho. simpl. now rewrite Hf.
  - rewrite Hs. simpl. now rewrite Hp.
  - rewrite Hs. simpl. rewrite Hp. simpl.
    rewrite forOf_loopBody, Hpl.
    now rewrite (forOf_replace_Throw _ collected rest s e t m [] Hc Hf).
Qed.

(** C9.  When reading the selection, parsing, or building the range of an
    edit throws, the command makes one call on the editor and no other: it
    shows the error message that ends with the message of the exception.
    No edit is applied, also when edits had been collected before the
    exception. *)
Theorem failure_aborts_and_reports_once (host : Host) (editor : TextEditor)
    (m : string) :
  FailsWith host editor m ->
  extractTailwindClasses host (Some editor)
  = [ShowErrorMessage (errorPrefix ++ m)%string]
  /\ appliesEdit (extractTailwindClasses host (Some editor)) = false.
Proof.
  intros H. apply FailsWith_collectEdits in H.
  unfold extractTailwindClasses. rewrite H. split; reflexivity.
Qed.

Lemma failure_aborts_and_reports_once_witness :
  FailsWith brokenHost editor1 "Debug Failure."
  /\ extractTailwindClasses brokenHost (Some editor1)
     = [ShowErrorMessage
          "An error occurred while extracting Tailwind classes: Debug Failure."].
Proof.
  assert (H : FailsWith brokenHost editor1 "Debug Failure.").
  { apply (FailsAtParse brokenHost editor1 "Debug Failure." doc1Text 0);
      reflexivity. }
  split; [exact H|].
  exact (proj1 (failure_aborts_and_reports_once
                  brokenHost editor1 "Debug Failure." H)).
Defined.

(** The end of the only edit cannot be positioned: nothing is applied. *)
Example failure_while_rewriting :
  FailsWith demoHost (mkTextEditor shortDocument noSelection) "Illegal offset"
  /\ extractTailwindClasses demoHost
       (Some (mkTextEditor shortDocument noSelection))
     = [ShowErrorMessage
          "An error occurred while extracting Tailwind classes: Illegal offset"].
Proof.
  split; [|reflexivity].
  apply (FailsAtRewrite demoHost (mkTextEditor shortDocument noSelection)
                        "Illegal offset" doc1Text 0 ast1
                        [] 15 39 replacement1 []);
    try reflexivity; [constructor|].
  right. split; [eexists|]; reflexivity.
Qed.

(** Without an exception the command makes the one call of [applyEdit]. *)
Lemma success_applies_once (host : Host) (editor : TextEditor)
    (workspaceEdit : WorkspaceEdit) (b : bool) :
  collectEdits host editor = Ok workspaceEdit ->
  applyEdit host workspaceEdit = Ok b ->
  extractTailwindClasses host (Some editor) = [ApplyEdit workspaceEdit].
Proof.
  intros H Ha. unfold extractTailwindClasses. now rewrite H, Ha.
Qed.

(** ** Syntax trees: traversal and positions *)

Lemma findClassNames_tokenNodes (q : option Loc) :
  flat_map findClassNames (tokenNodes q) = [].
Proof. now destruct q. Qed.

Lemma findClassNames_children (n : Node) :
  findClassNames n
  = (if isClassNameAttribute n then [n] else [])
    ++ flat_map findClassNames (forEachChild n).
Proof.
  destruct n as [l|l t|l d [x|]|l f q targs args|l nm [x|]|l cs];
    cbn [findClassNames forEachChild optList];
    rewrite ?flat_map_app, ?findClassNames_tokenNodes; cbn [flat_map app];
    rewrite ?flat_map_app, ?findClassNames_tokenNodes, ?app_nil_r;
    reflexivity.
Qed.

Lemma locOk_le (sourceText : string) (l : Loc) :
  locOk sourceText l = true -> Nat.leb (locStart l) (locEnd l) = true.
Proof. unfold locOk. rewrite !andb_true_iff. tauto. Qed.

Lemma wellFormed_leaf (sourceText : string) (l : Loc) :
  locOk sourceText l = true ->
  wellFormed sourceText (Identifier l) = true
  /\ wellFormed sourceText (OtherNode l []) = true.
Proof.
  intros H. simpl. unfold getStart, getEnd. simpl.
  now rewrite H, (locOk_le _ _ H).
Qed.

Lemma wellFormed_children (sourceText : string) (n : Node) :
  wellFormed sourceText n = true ->
  locOk sourceText (loc n) = true
  /\ chained (getStart n) (forEachChild n) (getEnd n) = true
  /\ Forall (fun c => wellFormed sourceText c = true) (forEachChild n).
Proof.
  destruct n as [l|l t|l d [x|]|l f q targs args|l nm [x|]|l cs];
    cbn [wellFormed]; rewrite ?andb_true_iff; intros H;
    (split; [tauto|]); (split; [tauto|]); cbn [forEachChild optList].
  - constructor.
  - constructor.
  - apply Forall_app. split.
    + destruct d as [t|]; [|constructor]. constructor; [|constructor].
      now apply wellFormed_leaf.
    + constructor; [tauto | constructor].
  - apply Forall_app. split; [|constructor].
    destruct d as [t|]; [|constructor]. constructor; [|constructor].
    now apply wellFormed_leaf.
  - constructor; [tauto|]. apply Forall_app. split.
    + destruct q as [t|]; [|constructor]. constructor; [|constructor].
      now apply wellFormed_leaf.
    + apply Forall_app. split; apply Forall_forall, forallb_forall; tauto.
  - constructor; [now apply wellFormed_leaf|]. constructor; [tauto|constructor].
  - constructor; [now apply wellFormed_leaf | constructor].
  - apply Forall_forall, forallb_forall. tauto.
Qed.

Lemma length_substring (s : string) (n m : nat) :
  n + m <= String.length s -> String.length (String.substring n m s) = m.
Proof.
  revert n m. induction s as [|c s IH]; intros n m H; simpl in H.
  - assert (n = 0) by lia. assert (m = 0) by lia. subst. reflexivity.
  - destruct n as [|n]; simpl.
    + destruct m as [|m]; simpl; [reflexivity|].
      f_equal. apply (IH 0 m). lia.
    + apply IH. lia.
Qed.

Lemma locOk_span (sourceText : string) (l : Loc) :
  locOk sourceText l = true ->
  locStart l <= locEnd l
  /\ String.length (locText l) = locEnd l - locStart l.
Proof.
  unfold locOk. rewrite !andb_true_iff, !Nat.leb_le.
  intros [[H1 H2] H3]. split; [assumption|].
  apply String.eqb_eq in H3. rewrite H3. apply length_substring. lia.
Qed.

Lemma wellFormed_span (sourceText : string) (n : Node) :
  wellFormed sourceText n = true -> getStart n <= getEnd n.
Proof.
  intros H. apply wellFormed_children in H. destruct H as (H & _ & _).
  now apply locOk_span in H.
Qed.

Lemma chained_bounds (sourceText : string) (cs : list Node) (lo hi : nat) :
  chained lo cs hi = true ->
  Forall (fun c => wellFormed sourceText c = true) cs ->
  lo <= hi /\ Forall (fun c => lo <= getStart c /\ getEnd c <= hi) cs.
Proof.
  revert lo. induction cs as [|c cs IH]; intros lo H Hwf; simpl in H.
  - apply Nat.leb_le in H. auto.
  - apply andb_true_iff in H. destruct H as [H1 H2]. apply Nat.leb_le in H1.
    inversion Hwf as [|? ? Hc Hcs]; subst.
    destruct (IH _ H2 Hcs) as [Hle Hall].
    pose proof (wellFormed_span _ _ Hc) as Hsp.
    split; [lia|]. constructor; [lia|].
    eapply Forall_impl; [|exact Hall]. simpl. intros a [Ha Hb]. lia.
Qed.

(** A subtree shorter than the name [className] holds no candidate. *)
Lemma findClassNames_short (sourceText : string) (n : Node) :
  wellFormed sourceText n = true ->
  getEnd n - getStart n < 9 ->
  findClassNames n = [].
Proof.
  induction n as [n IH] using Node_children_ind. intros Hwf Hshort.
  rewrite findClassNames_children.
  destruct (wellFormed_children _ _ Hwf) as (Hloc & Hch & Hcs).
  destruct (chained_bounds _ _ _ _ Hch Hcs) as [_ Hb].
  assert (Hkids : flat_map findClassNames (forEachChild n) = []).
  { clear Hch. induction (forEachChild n) as [|c cs IHc]; simpl; [reflexivity|].
    inversion IH; inversion Hcs; inversion Hb; subst.
    rewrite IHc by assumption.
    rewrite H1; [reflexivity | assumption | lia]. }
  rewrite Hkids, app_nil_r.
  destruct (isClassNameAttribute n) eqn:Hcand; [exfalso | reflexivity].
  destruct n as [| | | |l nm [i|]|]; try discriminate. simpl in Hcand.
  apply String.eqb_eq in Hcand.
  simpl in Hcs, Hb. inversion Hcs as [|? ? Hnm _]; subst.
  inversion Hb as [|? ? [Hlo Hhi] _]; subst.
  apply wellFormed_children in Hnm. destruct Hnm as (Hnm & _ & _).
  apply locOk_span in Hnm. simpl in Hnm. rewrite Hcand in Hnm. simpl in Hnm.
  unfold getStart, getEnd in *. simpl in *. lia.
Qed.

(** ** The spans of a batch *)

Lemma plannedEdits_app (offset : nat) (a b : list Node) :
  plannedEdits offset (a ++ b) = plannedEdits offset a ++ plannedEdits offset b.
Proof. unfold plannedEdits. apply flat_map_app. Qed.

Lemma inOrder_app (a b : list (nat * nat * string)) (mid lo hi : nat) :
  inOrder a -> inOrder b ->
  Forall (within lo mid) a -> Forall (within mid hi) b ->
  inOrder (a ++ b).
Proof.
  intros Ha Hb Hwa Hwb. induction a as [|[[s e] t] a IH]; simpl; [assumption|].
  simpl in Ha. destruct Ha as (Hse & Hall & Ha).
  inversion Hwa as [|? ? [_ He] Hwa']; subst. simpl in He.
  split; [assumption|]. split; [|now apply IH].
  apply Forall_app. split; [assumption|].
  eapply Forall_impl; [|exact Hwb]. intros x [Hx _]. lia.
Qed.

Lemma collectArguments_literals (args : list Node) (acc r : list string) :
  collectArguments args acc = Some r ->
  flat_map findClassNames args = [].
Proof.
  revert acc. induction args as [|a args IH]; intros acc H; simpl in *;
    [reflexivity|].
  destruct a; try discriminate. simpl. eapply IH. eassumption.
Qed.

Lemma extractClassNames_span (l nm : Loc) (init : Node)
    (x : list string * nat * nat) :
  extractClassNames (JsxAttribute l nm (Some init)) = Some x ->
  x = (fst (fst x), getStart init, getEnd init).
Proof.
  intros Hx. simpl in Hx.
  destruct init as [|l1 txt|l1 d1 [ex|]| | |]; try discriminate.
  - now inversion Hx.
  - destruct ex as [|l2 txt| |l2 callee q targs args| |]; try discriminate.
    + now inversion Hx.
    + destruct (String.eqb (getText callee) "twJoin"); [|discriminate].
      destruct (collectArguments args []); [|discriminate].
      now inversion Hx.
Qed.

(** The value of an attribute that is rewritten holds no other candidate,
    unless one sits in the type arguments of its call. *)
Lemma rewritten_value_is_flat (sourceText : string) (l nm : Loc) (init : Node)
    (x : list string * nat * nat) :
  extractClassNames (JsxAttribute l nm (Some init)) = Some x ->
  hasFlatValue (JsxAttribute l nm (Some init)) = true ->
  wellFormed sourceText init = true ->
  findClassNames init = [].
Proof.
  intros Hx Hflat Hwf. simpl in Hx.
  destruct init as [|l1 txt|l1 d1 [ex|]| | |]; try discriminate.
  - reflexivity.
  - destruct ex as [|l2 txt| |l2 callee q targs args| |]; try discriminate.
    + reflexivity.
    + destruct (String.eqb (getText callee) "twJoin") eqn:Hc; [|discriminate].
      destruct (collectArguments args []) as [cls|] eqn:Ha; [|discriminate].
      simpl in Hflat. simpl.
      rewrite (collectArguments_literals _ _ _ Ha), !app_nil_r.
      destruct (flat_map findClassNames targs); [|discriminate].
      rewrite app_nil_r.
      apply wellFormed_children in Hwf. destruct Hwf as (_ & _ & Hwf).
      cbn [forEachChild optList] in Hwf. apply Forall_app in Hwf.
      destruct Hwf as [_ Hwf]. inversion Hwf as [|? ? Hcall _]; subst.
      apply wellFormed_children in Hcall. destruct Hcall as (_ & _ & Hcall).
      inversion Hcall as [|? ? Hcallee _]; subst.
      apply (findClassNames_short sourceText); [assumption|].
      apply wellFormed_children in Hcallee. destruct Hcallee as (Hloc & _ & _).
      apply locOk_span in Hloc. apply String.eqb_eq in Hc.
      unfold getText in Hc. rewrite Hc in Hloc. simpl in Hloc.
      unfold getStart, getEnd. lia.
Qed.

(** Every planned edit lies inside the node it was found in. *)
Lemma node_edits_bounds (sourceText : string) (offset : nat) (n : Node) :
  wellFormed sourceText n = true ->
  Forall (fun x => getStart n + offset <= fst (fst x)
                   /\ fst (fst x) <= snd (fst x)
                   /\ snd (fst x) <= getEnd n + offset)
         (plannedEdits offset (findClassNames n)).
Proof.
  induction n as [n IH] using Node_children_ind. intros Hwf.
  destruct (wellFormed_children _ _ Hwf) as (Hloc & Hch & Hcs).
  destruct (chained_bounds _ _ _ _ Hch Hcs) as [_ Hb].
  rewrite findClassNames_children, plannedEdits_app. apply Forall_app. split.
  - destruct (isClassNameAttribute n) eqn:Hcand; [|constructor].
    unfold plannedEdits. simpl. rewrite app_nil_r.
    destruct (plannedEdit offset n) as [[[s e] t]|] eqn:Hp; [|constructor].
    destruct n as [| | | |l nm [init|]|]; try discriminate.
    unfold plannedEdit in Hp.
    destruct (extractClassNames _) as [x|] eqn:Hx; [|discriminate].
    rewrite (extractClassNames_span _ _ _ _ Hx) in Hp.
    destruct (rewriteClassNames _); [|discriminate].
    inversion Hp; subst. clear Hp.
    simpl in Hcs, Hb. inversion Hcs as [|? ? _ Hcs']; subst.
    inversion Hcs' as [|? ? Hinit _]; subst.
    inversion Hb as [|? ? _ Hb']; subst.
    inversion Hb' as [|? ? [H1 H2] _]; subst.
    pose proof (wellFormed_span _ _ Hinit) as Hsp.
    constructor; [|constructor]. simpl. lia.
  - clear Hch Hloc.
    induction (forEachChild n) as [|c cs IHc]; [constructor|].
    inversion IH as [|? ? IHhd IHtl]; subst.
    inversion Hcs as [|? ? Hc Hcs']; subst.
    inversion Hb as [|? ? [H1 H2] Hb']; subst.
    simpl. rewrite plannedEdits_app. apply Forall_app. split.
    + eapply Forall_impl; [|exact (IHhd Hc)]. simpl. intros x Hx. lia.
    + now apply IHc.
Qed.

Section KeptEdits.

Variable sourceText : string.
Variable offset : nat.
Variable keep : Node -> bool.
Hypothesis keep_flat : forall n, keep n = true -> hasFlatValue n = true.

Let editsOf (ns : list Node) : list (nat * nat * string) :=
  plannedEdits offset (filter keep ns).

Lemma children_edits_in_order (cs : list Node) (lo hi : nat) :
  chained lo cs hi = true ->
  Forall (fun c => wellFormed sourceText c = true) cs ->
  Forall (fun c =>
            inOrder (editsOf (findClassNames c))
            /\ Forall (within (getStart c + offset) (getEnd c + offset))
                      (editsOf (findClassNames c))) cs ->
  inOrder (editsOf (flat_map findClassNames cs))
  /\ Forall (within (lo + offset) (hi + offset))
            (editsOf (flat_map findClassNames cs)).
Proof.
  unfold editsOf. revert lo. induction cs as [|c cs IH]; intros lo Hch Hwf Hinv.
  - simpl. auto.
  - simpl in Hch. apply andb_true_iff in Hch. destruct Hch as [Hlo Hch].
    apply Nat.leb_le in Hlo.
    inversion Hwf as [|? ? Hc Hcs]; subst.
    inversion Hinv as [|? ? [Hoc Hwc] Hinv']; subst.
    destruct (IH _ Hch Hcs Hinv') as [Hor Hwr].
    destruct (chained_bounds _ _ _ _ Hch Hcs) as [Hhi _].
    pose proof (wellFormed_span _ _ Hc) as Hsp.
    simpl. rewrite filter_app, plannedEdits_app. split.
    + eapply inOrder_app; eassumption.
    + apply Forall_app. split.
      * eapply Forall_impl; [|exact Hwc]. intros x [H1 H2].
        unfold within. lia.
      * eapply Forall_impl; [|exact Hwr]. intros x [H1 H2].
        unfold within. lia.
Qed.

Lemma kept_edits_in_order (n : Node) :
  wellFormed sourceText n = true ->
  inOrder (editsOf (findClassNames n))
  /\ Forall (within (getStart n + offset) (getEnd n + offset))
            (editsOf (findClassNames n)).
Proof.
  induction n as [n IH] using Node_children_ind. intros Hwf.
  destruct (wellFormed_children _ _ Hwf) as (Hloc & Hch & Hcs).
  assert (Hkids : inOrder (editsOf (flat_map findClassNames (forEachChild n)))
                  /\ Forall (within (getStart n + offset) (getEnd n + offset))
                            (editsOf (flat_map findClassNames (forEachChild n)))).
  { apply children_edits_in_order; try assumption.
    apply Forall_forall. intros c Hc.
    rewrite Forall_forall in IH, Hcs. apply IH; auto. }
  unfold editsOf in *.
  rewrite findClassNames_children, filter_app, plannedEdits_app.
  destruct (isClassNameAttribute n) eqn:Hcand; [|exact Hkids].
  cbn [filter]. destruct (keep n) eqn:Hkeep; [|exact Hkids].
  unfold plannedEdits at 1 3. simpl. rewrite app_nil_r.
  destruct (plannedEdit offset n) as [[[s e] t]|] eqn:Hp; [|exact Hkids].
  destruct n as [| | | |l nm [init|]|]; try discriminate.
  unfold plannedEdit in Hp.
  destruct (extractClassNames _) as [x|] eqn:Hx; [|discriminate].
  simpl in Hcs. inversion Hcs as [|? ? _ Hcs']; subst.
  inversion Hcs' as [|? ? Hinit _]; subst.
  pose proof (rewritten_value_is_flat _ _ _ _ _ Hx (keep_flat _ Hkeep) Hinit)
    as Hflat.
  rewrite (extractClassNames_span _ _ _ _ Hx) in Hp.
  destruct (rewriteClassNames _); [|discriminate].
  inversion Hp; subst. clear Hp.
  simpl forEachChild. simpl flat_map. rewrite Hflat. simpl.
  pose proof (wellFormed_span _ _ Hinit) as Hsp.
  destruct (chained_bounds sourceText _ _ _ Hch Hcs) as [_ Hb].
  inversion Hb as [|? ? _ Hb']; subst.
  inversion Hb' as [|? ? [H1 H2] _]; subst.
  split; [repeat split; auto; lia|].
  constructor; [|constructor]. unfold within. simpl. lia.
Qed.

End KeptEdits.

(** The edits planned for the attributes whose type arguments hold no
    attribute come one after the other in the document. *)
Lemma flat_edits_do_not_overlap (sourceText : string) (offset : nat)
    (sourceFile : Node) :
  wellFormed sourceText sourceFile = true ->
  inOrder (plannedEdits offset
             (filter hasFlatValue (findClassNames sourceFile))).
Proof.
  intros Hwf.
  now apply (kept_edits_in_order sourceText offset hasFlatValue
               (fun n H => H) sourceFile).
Qed.

Example demo_trees_are_well_formed :
  wellFormed doc1Text ast1 = true /\ wellFormed doc2Text ast2 = true.
Proof. split; reflexivity. Qed.

(** C8.  A call of twJoin with a type argument that holds an element with a
    className attribute: the scan goes through the type argument and takes
    the inner attribute, the test of the call looks at its arguments only
    and takes the outer one, and the batch holds two replacements of which
    the second lies inside the span of the first. *)
Theorem type_arguments_hold_a_second_candidate :
  wellFormed doc6Text ast6 = true
  /\ findClassNames ast6 = [outerAttribute6; innerAttribute6]
  /\ map fst (plannedEdits 0 (findClassNames ast6)) = [(13, 59); (36, 42)]
  /\ ~ inOrder (plannedEdits 0 (findClassNames ast6))
  /\ exists t1 t2,
       extractTailwindClasses demoHost6 (Some editor6)
       = [ApplyEdit
            [Replace (mkRange (mkPosition 0 13) (mkPosition 0 59)) t1;
             Replace (mkRange (mkPosition 0 36) (mkPosition 0 42)) t2;
             importEdit]].
Proof.
  split; [reflexivity|]. split; [reflexivity|]. split; [reflexivity|]. split.
  - vm_compute. intros (_ & H & _). inversion H as [|? ? H1 _]; subst.
    simpl in H1. lia.
  - eexists. eexists. vm_compute. reflexivity.
Qed.

(** ** Splitting on white space *)

Lemma append_empty_r (s : string) : (s ++ EmptyString)%string = s.
Proof. induction s as [|c s IH]; simpl; [reflexivity | now rewrite IH]. Qed.

Lemma append_assoc (a b c : string) :
  ((a ++ b) ++ c)%string = (a ++ (b ++ c))%string.
Proof. induction a as [|x a IH]; simpl; [reflexivity | now rewrite IH]. Qed.

Lemma noWhiteSpace_app (a b : string) :
  noWhiteSpace (a ++ b) = noWhiteSpace a && noWhiteSpace b.
Proof.
  induction a as [|c a IH]; simpl; [reflexivity|].
  now rewrite IH, andb_assoc.
Qed.

Lemma isEmptyString_snoc (a : string) (c : ascii) :
  isEmptyString (a ++ String c EmptyString) = false.
Proof. now destruct a. Qed.

Lemma splitFrom_token (b : bool) (cur t r : string) :
  noWhiteSpace t = true ->
  JS.splitFrom b cur (t ++ r)
  = JS.splitFrom (b && isEmptyString t) (cur ++ t) r.
Proof.
  revert b cur. induction t as [|c t IH]; intros b cur H; simpl.
  - now rewrite andb_true_r, append_empty_r.
  - simpl in H. apply andb_true_iff in H. destruct H as [Hc Ht].
    apply negb_true_iff in Hc. rewrite Hc, (IH _ _ Ht), andb_false_r.
    simpl. now rewrite append_assoc.
Qed.

Lemma splitFrom_space (b : bool) (cur r : string) :
  JS.splitFrom b cur (String " "%char r)
  = if b then JS.splitFrom true cur r
    else cur :: JS.splitFrom true EmptyString r.
Proof. reflexivity. Qed.

Lemma split_join_inRun (g : list string) :
  g <> [] ->
  Forall (fun t => noWhiteSpace t = true) g ->
  nonEmptyButLast g = true ->
  JS.splitFrom true EmptyString (JS.join " " g) = g.
Proof.
  induction g as [|y g IH]; intros Hne Hws Hnl; [congruence|].
  inversion Hws as [|? ? Hy Hg]; subst.
  destruct g as [|z g].
  - simpl. rewrite <- (append_empty_r y) at 1.
    rewrite (splitFrom_token _ _ _ _ Hy). reflexivity.
  - simpl in Hnl. apply andb_true_iff in Hnl. destruct Hnl as [Hy' Hnl].
    apply negb_true_iff in Hy'.
    change (JS.join " " (y :: z :: g))
      with (y ++ String " "%char (JS.join " " (z :: g)))%string.
    rewrite (splitFrom_token _ _ _ _ Hy), Hy', splitFrom_space.
    cbn [andb append]. f_equal.
    apply IH; [discriminate | assumption | exact Hnl].
Qed.

(** Joining with single spaces and splitting again gives the tokens back
    when only the first and the last of them may be empty. *)
Lemma split_join (g : list string) :
  g <> [] ->
  Forall (fun t => noWhiteSpace t = true) g ->
  emptyOnlyAtEnds g = true ->
  JS.split (JS.join " " g) = g.
Proof.
  intros Hne Hws He. destruct g as [|x g]; [congruence|].
  inversion Hws as [|? ? Hx Hg]; subst. unfold JS.split.
  destruct g as [|y g].
  - simpl. rewrite <- (append_empty_r x) at 1.
    rewrite (splitFrom_token _ _ _ _ Hx). reflexivity.
  - change (JS.join " " (x :: y :: g))
      with (x ++ String " "%char (JS.join " " (y :: g)))%string.
    rewrite (splitFrom_token _ _ _ _ Hx), splitFrom_space.
    cbn [andb append]. f_equal.
    apply split_join_inRun; [discriminate | assumption | exact He].
Qed.

Lemma splitFrom_noWhiteSpace (b : bool) (cur s : string) :
  noWhiteSpace cur = true ->
  Forall (fun t => noWhiteSpace t = true) (JS.splitFrom b cur s).
Proof.
  revert b cur. induction s as [|c s IH]; intros b cur H; simpl.
  - auto.
  - destruct (JS.isWhiteSpace c) eqn:Hc.
    + destruct b; [now apply IH|]. constructor; [assumption | now apply IH].
    + apply IH. rewrite noWhiteSpace_app, H. simpl. now rewrite Hc.
Qed.

Lemma nonEmptyButLast_cons (x : string) (l : list string) :
  isEmptyString x = false -> nonEmptyButLast l = true ->
  nonEmptyButLast (x :: l) = true.
Proof. intros Hx Hl. simpl. rewrite Hx, Hl. now destruct l. Qed.

Lemma splitFrom_nonEmptyButLast (s : string) :
  (forall b cur, isEmptyString cur = false ->
                 nonEmptyButLast (JS.splitFrom b cur s) = true)
  /\ nonEmptyButLast (JS.splitFrom true EmptyString s) = true.
Proof.
  induction s as [|c s [IHa IHb]]; [split; reflexivity|]. split.
  - intros b cur H. simpl. destruct (JS.isWhiteSpace c).
    + destruct b; [now apply IHa | now apply nonEmptyButLast_cons].
    + apply IHa. apply isEmptyString_snoc.
  - simpl. destruct (JS.isWhiteSpace c); [exact IHb|]. now apply IHa.
Qed.

Lemma splitFrom_emptyOnlyAtEnds (b : bool) (cur s : string) :
  emptyOnlyAtEnds (JS.splitFrom b cur s) = true.
Proof.
  revert b cur. induction s as [|c s IH]; intros b cur; simpl; [reflexivity|].
  destruct (JS.isWhiteSpace c); [|apply IH].
  destruct b; [apply IH|]. simpl. apply splitFrom_nonEmptyButLast.
Qed.

(** The tokens of a text: none holds white space, and only the first and
    the last may be empty. *)
Lemma split_tokens (text : string) :
  Forall (fun t => noWhiteSpace t = true) (JS.split text)
  /\ emptyOnlyAtEnds (JS.split text) = true.
Proof.
  split; [now apply splitFrom_noWhiteSpace | apply splitFrom_emptyOnlyAtEnds].
Qed.

(** C5.  The split keeps an empty token where the text begins or ends with
    white space, and gives one empty token for an empty text; the empty token
    is classified as a base class and reaches the emitted call as an empty
    argument. *)
Theorem split_keeps_empty_tokens :
  JS.split " sm:p-4" = [EmptyString; "sm:p-4"]
  /\ JS.split "sm:p-4 " = ["sm:p-4"; EmptyString]
  /\ JS.split EmptyString = [EmptyString]
  /\ baseClasses (separateClasses (JS.split " sm:p-4")) = [EmptyString]
  /\ rewriteClassNames (JS.split " sm:p-4")
     = Some ("{twJoin(" ++ LF
             ++ indent8 ++ DQ ++ DQ ++ "," ++ LF
             ++ indent8 ++ DQ ++ "sm:p-4" ++ DQ ++ LF
             ++ indent6 ++ ")}")%string.
Proof. repeat split. Qed.

(** ** Classifying the emitted groups again *)

Lemma filter_twice {A : Type} (f : A -> bool) (l : list A) :
  filter f (filter f l) = filter f l.
Proof.
  induction l as [|x l IH]; simpl; [reflexivity|].
  destruct (f x) eqn:Hx; simpl; [rewrite Hx, IH|]; auto.
Qed.

Lemma filter_none {A : Type} (f : A -> bool) (l : list A) :
  (forall x, In x l -> f x = false) -> filter f l = [].
Proof.
  induction l as [|x l IH]; intros H; simpl; [reflexivity|].
  rewrite (H x (or_introl eq_refl)). apply IH. intros y Hy. apply H. now right.
Qed.

Lemma filter_all {A : Type} (f : A -> bool) (l : list A) :
  (forall x, In x l -> f x = true) -> filter f l = l.
Proof.
  induction l as [|x l IH]; intros H; simpl; [reflexivity|].
  rewrite (H x (or_introl eq_refl)). f_equal. apply IH. intros y Hy.
  apply H. now right.
Qed.

Lemma filter_bucket_base (p : string) (l : list string) :
  filter isBase (filter (inBucket p) l) = [].
Proof.
  apply filter_none. intros x Hx. apply filter_In in Hx. destruct Hx as [_ Hx].
  apply inBucket_true in Hx. unfold isBase. now rewrite Hx.
Qed.

Lemma filter_base_bucket (p : string) (l : list string) :
  filter (inBucket p) (filter isBase l) = [].
Proof.
  apply filter_none. intros x Hx. apply filter_In in Hx. destruct Hx as [_ Hx].
  apply isBase_true in Hx. unfold inBucket. now rewrite Hx.
Qed.

Lemma filter_bucket_other (p q : string) (l : list string) :
  p <> q -> filter (inBucket p) (filter (inBucket q) l) = [].
Proof.
  intros Hne. apply filter_none. intros x Hx. apply filter_In in Hx.
  destruct Hx as [_ Hx]. apply inBucket_true in Hx. unfold inBucket.
  rewrite Hx. apply String.eqb_neq. congruence.
Qed.

Lemma regroup_base (classNames : list string) :
  filter isBase (regroup classNames) = filter isBase classNames.
Proof.
  unfold regroup. rewrite filter_app, filter_twice.
  induction (firsts (prefixesOf classNames)) as [|k ks IH]; simpl.
  - apply app_nil_r.
  - rewrite filter_app, filter_bucket_base. exact IH.
Qed.

Lemma buckets_filter (classNames ks : list string) (p : string) :
  NoDup ks ->
  filter (inBucket p)
         (List.concat (map (fun q => filter (inBucket q) classNames) ks))
  = if in_dec string_dec p ks then filter (inBucket p) classNames else [].
Proof.
  induction ks as [|k ks IH]; intros Hnd; simpl; [reflexivity|].
  inversion Hnd as [|? ? Hk Hnd']; subst.
  rewrite filter_app, (IH Hnd').
  destruct (string_dec k p) as [->|Hne].
  - rewrite filter_twice.
    destruct (in_dec string_dec p ks); [contradiction | apply app_nil_r].
  - rewrite filter_bucket_other by congruence. simpl.
    destruct (in_dec string_dec p ks); reflexivity.
Qed.

Lemma regroup_bucket (classNames : list string) (p : string) :
  In p (firsts (prefixesOf classNames)) ->
  filter (inBucket p) (regroup classNames) = filter (inBucket p) classNames.
Proof.
  intros Hp. unfold regroup.
  rewrite filter_app, filter_base_bucket, buckets_filter
    by apply firsts_NoDup.
  simpl. destruct (in_dec string_dec p _); [reflexivity | contradiction].
Qed.

Lemma firsts_same_prefix (l rest : list string) (k : string) :
  l <> [] -> (forall c, In c l -> findPrefix c = Some k) ->
  firsts (prefixesOf l ++ rest)
  = k :: filter (fun y => negb (String.eqb y k)) (firsts rest).
Proof.
  induction l as [|c l IH]; intros Hne H; [congruence|].
  change (c :: l) with ([c] ++ l). rewrite prefixesOf_app.
  unfold prefixesOf at 1. simpl. rewrite (H c (or_introl eq_refl)). simpl.
  f_equal. destruct l as [|c' l]; [reflexivity|].
  rewrite IH; [|discriminate | intros x Hx; apply H; now right].
  simpl. rewrite String.eqb_refl. simpl. apply filter_twice.
Qed.

Lemma firsts_of_buckets (classNames ks : list string) :
  NoDup ks -> (forall p, In p ks -> In p (prefixesOf classNames)) ->
  firsts (prefixesOf
            (List.concat (map (fun q => filter (inBucket q) classNames) ks)))
  = ks.
Proof.
  induction ks as [|k ks IH]; intros Hnd Hin; simpl; [reflexivity|].
  inversion Hnd as [|? ? Hk Hnd']; subst.
  rewrite prefixesOf_app, firsts_same_prefix with (k := k).
  - rewrite IH by (auto; intros p Hp; apply Hin; now right).
    f_equal. apply filter_all. intros x Hx. apply negb_true_iff.
    apply String.eqb_neq. congruence.
  - apply bucket_nonempty. apply Hin. now left.
  - intros c Hc. apply filter_In in Hc. now apply inBucket_true.
Qed.

Lemma regroup_prefixes (classNames : list string) :
  firsts (prefixesOf (regroup classNames)) = firsts (prefixesOf classNames).
Proof.
  unfold regroup. rewrite prefixesOf_app.
  replace (prefixesOf (filter isBase classNames)) with (@nil string).
  - simpl. apply firsts_of_buckets; [apply firsts_NoDup|].
    intros p. apply firsts_In.
  - symmetry. unfold prefixesOf.
    induction classNames as [|c l IH]; simpl; [reflexivity|].
    destruct (isBase c) eqn:Hc; [|exact IH]. simpl.
    apply isBase_true in Hc. now rewrite Hc.
Qed.

(** The classification depends on the tokens only, not on the group they
    were read from. *)
Lemma separateClasses_regroup (classNames : list string) :
  separateClasses (regroup classNames) = separateClasses classNames.
Proof.
  rewrite !separateClasses_spec. unfold specOf, bucketsOf.
  rewrite regroup_base, regroup_prefixes. f_equal.
  apply map_ext_in. intros p Hp. f_equal. now apply regroup_bucket.
Qed.

Lemma nonEmptyButLast_filter (f : string -> bool) (l : list string) :
  nonEmptyButLast l = true -> nonEmptyButLast (filter f l) = true.
Proof.
  induction l as [|x l IH]; intros H; [reflexivity|].
  destruct l as [|y l].
  - simpl. now destruct (f x).
  - change (negb (isEmptyString x) && nonEmptyButLast (y :: l) = true) in H.
    apply andb_true_iff in H. destruct H as [Hx Hl].
    apply negb_true_iff in Hx. specialize (IH Hl).
    change (filter f (x :: y :: l))
      with (if f x then x :: filter f (y :: l) else filter f (y :: l)).
    destruct (f x); [now apply nonEmptyButLast_cons | exact IH].
Qed.

Lemma nonEmptyButLast_tail (x : string) (l : list string) :
  nonEmptyButLast (x :: l) = true -> nonEmptyButLast l = true.
Proof.
  destruct l as [|y l]; [reflexivity|]. intros H.
  change (negb (isEmptyString x) && nonEmptyButLast (y :: l) = true) in H.
  apply andb_true_iff in H. tauto.
Qed.

Lemma emptyOnlyAtEnds_filter (f : string -> bool) (l : list string) :
  emptyOnlyAtEnds l = true -> emptyOnlyAtEnds (filter f l) = true.
Proof.
  destruct l as [|x l]; [reflexivity|]. intros H. simpl in H.
  pose proof (nonEmptyButLast_filter f l H) as Hf. simpl.
  destruct (f x); [exact Hf|].
  destruct (filter f l) as [|y r]; [reflexivity|]. simpl.
  now apply nonEmptyButLast_tail with (x := y).
Qed.

(** ** Running the rewriter on its own output *)

Lemma prefixed_nonempty (p cls : string) :
  findPrefix cls = Some p -> isEmptyString cls = false.
Proof. destruct cls; [discriminate | reflexivity]. Qed.

Lemma nonEmptyButLast_all (l : list string) :
  (forall x, In x l -> isEmptyString x = false) -> nonEmptyButLast l = true.
Proof.
  induction l as [|x l IH]; intros H; [reflexivity|].
  apply nonEmptyButLast_cons; [apply H; now left|].
  apply IH. intros y Hy. apply H. now right.
Qed.

Lemma bucket_emptyOnlyAtEnds (p : string) (classNames : list string) :
  emptyOnlyAtEnds (filter (inBucket p) classNames) = true.
Proof.
  assert (H : forall x, In x (filter (inBucket p) classNames) ->
                        isEmptyString x = false).
  { intros x Hx. apply filter_In in Hx. destruct Hx as [_ Hx].
    apply inBucket_true in Hx. now apply prefixed_nonempty in Hx. }
  destruct (filter (inBucket p) classNames) as [|x l]; [reflexivity|].
  simpl. apply nonEmptyButLast_all. intros y Hy. apply H. now right.
Qed.

Lemma Forall_filter {A : Type} (P : A -> Prop) (f : A -> bool) (l : list A) :
  Forall P l -> Forall P (filter f l).
Proof.
  intros H. apply Forall_forall. intros x Hx. apply filter_In in Hx.
  rewrite Forall_forall in H. apply H. tauto.
Qed.

(** The tokens read back from the emitted arguments. *)
Lemma second_pass_tokens (classNames : list string) :
  Forall (fun t => noWhiteSpace t = true) classNames ->
  emptyOnlyAtEnds classNames = true ->
  flat_map JS.split (groupsOf (separateClasses classNames))
  = regroup classNames.
Proof.
  intros Hws He. rewrite separateClasses_spec. unfold groupsOf, regroup.
  cbn [baseClasses mediaClassesMap specOf]. rewrite flat_map_app. f_equal.
  - destruct (filter isBase classNames) as [|x l] eqn:Eb; [reflexivity|].
    cbn [List.length Nat.ltb Nat.leb flat_map]. rewrite app_nil_r, <- Eb.
    apply split_join.
    + rewrite Eb. discriminate.
    + now apply Forall_filter.
    + now apply emptyOnlyAtEnds_filter.
  - unfold bucketsOf. rewrite map_map. cbn [snd].
    assert (Hk : forall p, In p (firsts (prefixesOf classNames)) ->
                           In p (prefixesOf classNames))
      by (intros p; apply firsts_In).
    induction (firsts (prefixesOf classNames)) as [|k ks IH];
      [reflexivity|].
    cbn [map flat_map List.concat]. rewrite IH by (intros p Hp; apply Hk; now right).
    f_equal. apply split_join.
    + apply bucket_nonempty. apply Hk. now left.
    + now apply Forall_filter.
    + apply bucket_emptyOnlyAtEnds.
Qed.

Lemma collectArguments_texts (args : list Node) (groups acc : list string) :
  map literalText args = map Some groups ->
  collectArguments args acc = Some (acc ++ flat_map JS.split groups).
Proof.
  revert groups acc. induction args as [|a args IH]; intros groups acc H.
  - destruct groups; [|discriminate]. simpl. now rewrite app_nil_r.
  - destruct groups as [|g groups]; [discriminate|]. simpl in H.
    inversion H as [[Ha Hr]]. destruct a; try discriminate.
    simpl in Ha. inversion Ha; subst. simpl.
    rewrite (IH _ _ Hr). now rewrite app_assoc.
Qed.

Lemma collectArguments_noWhiteSpace (args : list Node) (acc r : list string) :
  Forall (fun t => noWhiteSpace t = true) acc ->
  collectArguments args acc = Some r ->
  Forall (fun t => noWhiteSpace t = true) r.
Proof.
  revert acc. induction args as [|a args IH]; intros acc Hacc H; simpl in H.
  - inversion H. now subst.
  - destruct a; try discriminate. eapply IH; [|eassumption].
    apply Forall_app. split; [assumption | apply split_tokens].
Qed.

Lemma extractClassNames_noWhiteSpace (n : Node) (classNames : list string)
    (s e : nat) :
  extractClassNames n = Some (classNames, s, e) ->
  Forall (fun t => noWhiteSpace t = true) classNames.
Proof.
  intros H. unfold extractClassNames in H.
  destruct n as [| | | |l nm [init|]|]; try discriminate.
  destruct init as [|l1 txt|l1 d1 [ex|]| | |]; try discriminate.
  - inversion H. apply split_tokens.
  - destruct ex as [|l2 txt| |l2 callee q targs args| |]; try discriminate.
    + inversion H. apply split_tokens.
    + destruct (String.eqb (getText callee) "twJoin"); [|discriminate].
      destruct (collectArguments args []) as [cls|] eqn:Ha; [|discriminate].
      inversion H; subst.
      eapply collectArguments_noWhiteSpace; [|eassumption]. constructor.
Qed.

(** The value of an attribute that is a string literal, bare or between
    braces, gives tokens of which only the first and the last may be empty. *)
Lemma literal_value_tokens (l nm l1 l2 : Loc) (d : option Loc)
    (text : string) :
  (exists s e,
      extractClassNames (JsxAttribute l nm (Some (StringLiteral l1 text)))
      = Some (JS.split text, s, e))
  /\ (exists s e,
         extractClassNames
           (JsxAttribute l nm
              (Some (JsxExpression l1 d (Some (StringLiteral l2 text)))))
         = Some (JS.split text, s, e))
  /\ emptyOnlyAtEnds (JS.split text) = true.
Proof.
  split; [|split]; [simpl; eauto | simpl; eauto | apply split_tokens].
Qed.

(** ** The emitted text read back *)

Lemma needsNoEscape_app (a b : string) :
  needsNoEscape (a ++ b) = needsNoEscape a && needsNoEscape b.
Proof.
  induction a as [|c a IH]; simpl; [reflexivity|].
  now rewrite IH, !andb_assoc.
Qed.

Lemma readable_app (a b : string) :
  readable (a ++ b) = readable a && readable b.
Proof.
  induction a as [|c a IH]; simpl; [reflexivity|].
  now rewrite IH, !andb_assoc.
Qed.

Lemma lineBreak_isWhiteSpace (c : ascii) :
  JS.isWhiteSpace c = false -> isLineBreak c = false.
Proof.
  unfold JS.isWhiteSpace, isLineBreak. cbv zeta. intros H.
  repeat (apply orb_false_iff in H; destruct H as [H ?]).
  apply orb_false_iff. split; assumption.
Qed.

(** A token without white space, double quote or backslash stands for itself
    between double quotes. *)
Lemma readable_token (t : string) :
  noWhiteSpace t = true -> needsNoEscape t = true -> readable t = true.
Proof.
  induction t as [|c t IH]; simpl; [reflexivity|]. intros Hw Hn.
  apply andb_true_iff in Hw. destruct Hw as [Hc Hw].
  apply andb_true_iff in Hn. destruct Hn as [Hq Hn].
  apply negb_true_iff, lineBreak_isWhiteSpace in Hc.
  now rewrite Hq, Hc, (IH Hw Hn).
Qed.

Lemma readable_join (ts : list string) :
  Forall (fun t => readable t = true) ts ->
  readable (JS.join " " ts) = true.
Proof.
  induction ts as [|x ts IH]; intros H; [reflexivity|].
  inversion H as [|? ? Hx Hts]; subst. destruct ts as [|y ts]; [exact Hx|].
  change (JS.join " " (x :: y :: ts))
    with (x ++ String " "%char (JS.join " " (y :: ts)))%string.
  rewrite readable_app, Hx. cbn [readable andb]. now apply IH.
Qed.

Lemma needsNoEscape_join (ts : list string) :
  Forall (fun t => needsNoEscape t = true) ts ->
  needsNoEscape (JS.join " " ts) = true.
Proof.
  induction ts as [|x ts IH]; intros H; [reflexivity|].
  inversion H as [|? ? Hx Hts]; subst. destruct ts as [|y ts]; [exact Hx|].
  change (JS.join " " (x :: y :: ts))
    with (x ++ String " "%char (JS.join " " (y :: ts)))%string.
  rewrite needsNoEscape_app, Hx. cbn [needsNoEscape andb]. now apply IH.
Qed.

Lemma needsNoEscape_splitFrom (b : bool) (cur s : string) :
  needsNoEscape cur = true -> needsNoEscape s = true ->
  Forall (fun t => needsNoEscape t = true) (JS.splitFrom b cur s).
Proof.
  revert b cur. induction s as [|c s IH]; intros b cur Hc Hs; simpl.
  - now constructor.
  - simpl in Hs. apply andb_true_iff in Hs. destruct Hs as [Hq Hs].
    destruct (JS.isWhiteSpace c).
    + destruct b; [now apply IH|]. constructor; [assumption | now apply IH].
    + apply IH; [|assumption].
      rewrite needsNoEscape_app, Hc. simpl. now rewrite Hq.
Qed.

(** Every emitted group is a join of tokens of the attribute. *)
Lemma groupsOf_Forall (Q : string -> Prop) (classNames : list string) :
  (forall ts, (forall t, In t ts -> In t classNames) -> Q (JS.join " " ts)) ->
  Forall Q (groupsOf (separateClasses classNames)).
Proof.
  intros H. rewrite separateClasses_spec. unfold groupsOf, specOf, bucketsOf.
  cbn [baseClasses mediaClassesMap]. apply Forall_app. split.
  - destruct (Nat.ltb 0 (List.length (filter isBase classNames)));
      [|constructor].
    constructor; [|constructor]. apply H. intros t Ht.
    apply filter_In in Ht. tauto.
  - rewrite map_map. cbn [snd]. apply Forall_forall. intros g Hg.
    apply in_map_iff in Hg. destruct Hg as (p & <- & _). apply H.
    intros t Ht. apply filter_In in Ht. tauto.
Qed.

Lemma groups_readable (classNames : list string) :
  Forall (fun t => noWhiteSpace t = true) classNames ->
  Forall (fun t => needsNoEscape t = true) classNames ->
  Forall (fun g => readable g = true) (groupsOf (separateClasses classNames)).
Proof.
  intros Hw Hn. apply groupsOf_Forall. intros ts Hts. apply readable_join.
  apply Forall_forall. intros t Ht. rewrite Forall_forall in Hw, Hn.
  apply readable_token; [apply Hw | apply Hn]; now apply Hts.
Qed.

Lemma groupTokens_needNoEscape (classNames : list string) :
  Forall (fun t => needsNoEscape t = true) classNames ->
  Forall (fun t => needsNoEscape t = true) (groupTokens classNames).
Proof.
  intros Hn. unfold groupTokens.
  assert (H : Forall (fun g => needsNoEscape g = true)
                     (groupsOf (separateClasses classNames))).
  { apply groupsOf_Forall. intros ts Hts. apply needsNoEscape_join.
    apply Forall_forall. intros t Ht. rewrite Forall_forall in Hn.
    apply Hn. now apply Hts. }
  induction H as [|g gs Hg _ IH]; [constructor|].
  cbn [flat_map]. apply Forall_app. split; [|exact IH].
  now apply needsNoEscape_splitFrom.
Qed.

Lemma read_expected (c : ascii) (p rest : string) (b : bool)
    (acc : list string) :
  readArguments (Expect (String c p) b) (String c p ++ rest) acc
  = readArguments (afterExpected EmptyString b) rest acc.
Proof.
  revert c. induction p as [|c' p IH]; intros c; cbn [append readArguments];
    rewrite Ascii.eqb_refl; [reflexivity|].
  cbn [afterExpected]. apply IH.
Qed.

Lemma read_literal (g cur rest : string) (acc : list string) :
  readable g = true ->
  readArguments (InLiteral cur) (g ++ DQ ++ rest) acc
  = readArguments AfterLiteral rest (acc ++ [(cur ++ g)%string]).
Proof.
  revert cur. induction g as [|c g IH]; intros cur H.
  - now rewrite append_empty_r.
  - cbn [readable] in H. apply andb_true_iff in H. destruct H as [H Hg].
    apply andb_true_iff in H. destruct H as [H Hl].
    apply andb_true_iff in H. destruct H as [Hq Hb].
    apply negb_true_iff in Hq, Hb, Hl.
    cbn [append readArguments]. rewrite Hq, Hb, Hl. cbn [orb].
    rewrite (IH _ Hg), append_assoc. reflexivity.
Qed.

Lemma read_rest (groups acc : list string) :
  Forall (fun g => readable g = true) groups ->
  readArguments AfterLiteral (emittedRest groups) acc = Some (acc ++ groups).
Proof.
  intros H. revert acc. induction H as [|g gs Hg _ IH]; intros acc.
  - now rewrite app_nil_r.
  - cbn [emittedRest]. change ("," ++ ?x)%string with (String ","%char x).
    cbn [readArguments]. rewrite Ascii.eqb_refl.
    change (LF ++ indent8 ++ DQ)%string
      with (String "010"%char (indent8 ++ DQ)%string).
    rewrite read_expected. cbn [afterExpected].
    rewrite (read_literal _ _ _ _ Hg), IH, <- app_assoc. reflexivity.
Qed.

(** The replacement text, argument by argument. *)
Lemma newClassNameOf_rest (g : string) (groups : list string) :
  newClassNameOf (map (fun g => (DQ ++ g ++ DQ)%string) (g :: groups))
  = ("{twJoin(" ++ LF ++ indent8 ++ DQ ++ g ++ DQ ++ emittedRest groups)%string.
Proof.
  unfold newClassNameOf. do 3 f_equal.
  revert g. induction groups as [|g' gs IH]; intros g.
  - cbn [map JS.join String.concat emittedRest]. now rewrite !append_assoc.
  - change (JS.join ("," ++ LF ++ indent8)
                    (map (fun g => (DQ ++ g ++ DQ)%string) (g :: g' :: gs)))
      with ((DQ ++ g ++ DQ)
            ++ ("," ++ LF ++ indent8)
            ++ JS.join ("," ++ LF ++ indent8)
                       (map (fun g => (DQ ++ g ++ DQ)%string) (g' :: gs)))%string.
    rewrite !append_assoc, IH. cbn [emittedRest]. now rewrite !append_assoc.
Qed.

(** The arguments of an emitted call read back as the emitted groups when
    the tokens need no escape. *)
Lemma readEmitted_groups (classNames : list string) (newClassName : string) :
  Forall (fun t => noWhiteSpace t = true) classNames ->
  Forall (fun t => needsNoEscape t = true) classNames ->
  rewriteClassNames classNames = Some newClassName ->
  readEmitted newClassName = Some (groupsOf (separateClasses classNames)).
Proof.
  intros Hw Hn Hr. pose proof (groups_readable _ Hw Hn) as Hg.
  rewrite rewriteClassNames_spec in Hr.
  destruct (mediaClassesMap (separateClasses classNames)) as [|kv m] eqn:Em;
    [discriminate|].
  inversion Hr as [Ht]. clear Hr Ht.
  assert (Hne : groupsOf (separateClasses classNames) <> []).
  { unfold groupsOf. rewrite Em. cbn [map].
    now destruct (Nat.ltb 0 _). }
  destruct (groupsOf (separateClasses classNames)) as [|g gs]; [congruence|].
  inversion Hg as [|? ? Hg1 Hgs]; subst.
  rewrite newClassNameOf_rest. unfold readEmitted.
  change ("{twJoin(" ++ LF ++ indent8 ++ DQ ++ g ++ DQ ++ emittedRest gs)%string
    with (("{twJoin(" ++ LF ++ indent8 ++ DQ)
          ++ (g ++ DQ ++ emittedRest gs))%string.
  change ("{twJoin(" ++ LF ++ indent8 ++ DQ)%string
    with (String "{"%char ("twJoin(" ++ LF ++ indent8 ++ DQ)%string).
  rewrite read_expected. cbn [afterExpected].
  rewrite (read_literal _ _ _ _ Hg1), (read_rest _ _ Hgs). reflexivity.
Qed.

(** C1, as the code has it.  Take an attribute rewritten by a first pass,
    with tokens of which only the first and the last may be empty and which
    hold no backslash and no double quote.  The arguments of the emitted
    call read back as the emitted groups.  For the attribute that the next
    run then finds, a call of twJoin between braces whose arguments are the
    string literals read from the emitted text, a second pass plans an edit
    over the span of the braced call, and its replacement text is the text
    of the first pass, character for character.  A document that holds the
    import line gets no import edit. *)
Theorem second_pass_repeats_replacement
    (first : Node) (classNames : list string) (start end_ : nat)
    (newClassName : string) (offset : nat) (la nm : Loc) :
  extractClassNames first = Some (classNames, start, end_) ->
  emptyOnlyAtEnds classNames = true ->
  Forall (fun t => needsNoEscape t = true) classNames ->
  rewriteClassNames classNames = Some newClassName ->
  newClassName
  = newClassNameOf (map (fun g => (DQ ++ g ++ DQ)%string)
                        (groupsOf (separateClasses classNames)))
  /\ readEmitted newClassName = Some (groupsOf (separateClasses classNames))
  /\ (forall value,
         readsBack newClassName value ->
         plannedEdit offset (JsxAttribute la nm (Some value))
         = Some (getStart value + offset, getEnd value + offset, newClassName))
  /\ (forall document workspaceEdit,
         JS.includes (docText document) importStatement = true ->
         ensureImportStatement document workspaceEdit = workspaceEdit).
Proof.
  intros Hx He Hn Hr.
  pose proof (extractClassNames_noWhiteSpace _ _ _ _ Hx) as Hws.
  pose proof (readEmitted_groups _ _ Hws Hn Hr) as Hread.
  split; [|split; [exact Hread|split]].
  - rewrite rewriteClassNames_spec in Hr.
    destruct (mediaClassesMap (separateClasses classNames));
      [discriminate | now inversion Hr].
  - intros value (l & lc & callee & args & texts & -> & Hc & Ht & Ha).
    rewrite Hread in Ht. inversion Ht; subst texts.
    unfold plannedEdit, extractClassNames.
    apply String.eqb_eq in Hc. rewrite Hc.
    rewrite (collectArguments_texts _ _ _ Ha). cbn [app].
    rewrite (second_pass_tokens _ Hws He).
    unfold rewriteClassNames in *. rewrite separateClasses_regroup.
    destruct (Nat.eqb _ 0); [discriminate|]. inversion Hr. reflexivity.
  - intros document workspaceEdit H. unfold ensureImportStatement.
    now rewrite H.
Qed.

Lemma second_pass_repeats_replacement_witness :
  extractClassNames attribute1
  = Some (JS.split "p-4 sm:p-8 text-center", 15, 39)
  /\ plannedEdit 0 attribute1 = Some (15, 39, replacement1)
  /\ readEmitted replacement1 = Some ["p-4 text-center"; "sm:p-8"]
  /\ plannedEdit 0 attribute2 = Some (56, 117, replacement1).
Proof.
  split; [reflexivity|]. split; [reflexivity|].
  destruct (second_pass_repeats_replacement
              attribute1 (JS.split "p-4 sm:p-8 text-center") 15 39
              replacement1 0 (slice doc2Text 46 117) (slice doc2Text 46 55))
    as (_ & Hread & Hedit & _);
    [reflexivity | reflexivity | vm_compute; repeat constructor
     | reflexivity |].
  split; [exact Hread|].
  apply (Hedit (JsxExpression (slice doc2Text 56 117) None
                  (Some (CallExpression (slice doc2Text 57 116)
                           (Identifier (slice doc2Text 57 63)) None []
                           [StringLiteral (slice doc2Text 73 90)
                                          "p-4 text-center";
                            StringLiteral (slice doc2Text 100 108)
                                          "sm:p-8"])))).
  exists (slice doc2Text 56 117), (slice doc2Text 57 116),
         (Identifier (slice doc2Text 57 63)),
         [StringLiteral (slice doc2Text 73 90) "p-4 text-center";
          StringLiteral (slice doc2Text 100 108) "sm:p-8"],
         ["p-4 text-center"; "sm:p-8"].
  repeat split.
Defined.

(** Against C1 as it is stated: on the first scenario the batch of the second
    pass is not empty.  It holds one replacement, of the braced call by the
    same text, and the document stays as it was. *)
Lemma second_pass_batch_is_not_empty :
  collectEdits demoHost editor1 = Ok batch1
  /\ applyEdits doc1Text batch1 = doc2Text
  /\ collectEdits demoHost editor2 = Ok batch2
  /\ batch2 <> []
  /\ applyEdits doc2Text batch2 = doc2Text.
Proof. repeat split. discriminate. Qed.

(** The text that the second pass replaces is the replacement text itself. *)
Example second_pass_replaces_text_by_itself :
  JS.substring doc2Text 56 117 = replacement1
  /\ positionOf doc2Text 56 = mkPosition 1 15
  /\ positionOf doc2Text 117 = mkPosition 4 8.
Proof. repeat split. Qed.

(** Arguments with white space at their ends: the first pass joins the empty
    tokens into a run of spaces, which a second pass reads as one separator. *)
Example padded_arguments_are_not_stable :
  plannedEdit 0 paddedCall = Some (0, 0, paddedReplacement "a   b")
  /\ rewriteClassNames (flat_map JS.split ["a   b"; "sm:c"])
     = Some (paddedReplacement "a b")
  /\ emptyOnlyAtEnds (flat_map JS.split ["a "; " b sm:c"]) = false.
Proof. repeat split. Qed.


(** * Further properties of the code *)

(** ** The table of prefixes *)

Lemma prefix_empty (s : string) : String.prefix EmptyString s = true.
Proof. now destruct s. Qed.

Lemma prefix_split (p s : string) :
  String.prefix p s = true <-> exists r, s = (p ++ r)%string.
Proof.
  revert p. induction s as [|b s IH]; intros p.
  - destruct p as [|a p]; simpl.
    + split; [intros _; now exists EmptyString | reflexivity].
    + split; [discriminate | intros [r Hr]; discriminate].
  - destruct p as [|a p]; simpl.
    + split; [intros _; now exists (String b s) | reflexivity].
    + destruct (ascii_dec a b) as [->|Hne].
      * rewrite IH. split; intros [r Hr]; exists r; congruence.
      * split; [discriminate | intros [r Hr]; congruence].
Qed.

Lemma prefix_comparable (p q s : string) :
  String.prefix p s = true -> String.prefix q s = true ->
  String.prefix p q = true \/ String.prefix q p = true.
Proof.
  revert p q. induction s as [|c s IH]; intros p q Hp Hq.
  - destruct p; [|discriminate]. left. apply prefix_empty.
  - destruct p as [|a p]; [left; apply prefix_empty|].
    destruct q as [|b q]; [right; apply prefix_empty|].
    simpl in *.
    destruct (ascii_dec a c) as [->|]; [|discriminate].
    destruct (ascii_dec b c) as [->|]; [|discriminate].
    destruct (ascii_dec c c) as [_|n]; [|now elim n].
    now apply IH.
Qed.

Lemma prefixFree_mediaPrefixes (p q : string) :
  In p mediaPrefixes -> In q mediaPrefixes ->
  String.prefix p q = true -> p = q.
Proof.
  intros Hp Hq Hpq.
  assert (H : prefixFree mediaPrefixes = true) by reflexivity.
  unfold prefixFree in H. rewrite forallb_forall in H.
  specialize (H p Hp). rewrite forallb_forall in H. specialize (H q Hq).
  rewrite Hpq in H. simpl in H. rewrite orb_false_r in H.
  now apply String.eqb_eq.
Qed.

Lemma findPrefix_spec (cls p : string) :
  findPrefix cls = Some p
  <-> In p mediaPrefixes /\ JS.startsWith cls p = true.
Proof.
  unfold findPrefix. split.
  - intros H. apply find_some in H. exact H.
  - intros [Hin Hp].
    destruct (find (fun q => JS.startsWith cls q) mediaPrefixes) as [q|] eqn:E.
    + apply find_some in E. destruct E as [Hq Hcq]. f_equal.
      unfold JS.startsWith in *.
      destruct (prefix_comparable _ _ _ Hp Hcq) as [H|H].
      * symmetry. now apply prefixFree_mediaPrefixes.
      * now apply prefixFree_mediaPrefixes.
    + pose proof (find_none _ _ E p Hin) as H. simpl in H. congruence.
Qed.

(** X1.  A token begins with one entry of the table at most, and that entry
    is the one found for it: the order of the table plays no part, and a
    token that begins with an entry never goes to the base classes. *)
Theorem prefix_match_is_unique (cls p q : string) :
  In p mediaPrefixes -> JS.startsWith cls p = true ->
  In q mediaPrefixes -> JS.startsWith cls q = true ->
  p = q /\ findPrefix cls = Some p /\ isBase cls = false.
Proof.
  intros Hp Hcp Hq Hcq.
  assert (H1 : findPrefix cls = Some p) by (apply findPrefix_spec; auto).
  assert (H2 : findPrefix cls = Some q) by (apply findPrefix_spec; auto).
  split; [congruence|]. split; [assumption|]. unfold isBase. now rewrite H1.
Qed.

Lemma prefix_match_is_unique_witness :
  findPrefix "2xl:p-4" = Some "2xl:" /\ isBase "2xl:p-4" = false.
Proof.
  apply (prefix_match_is_unique "2xl:p-4" "2xl:" "2xl:");
    try reflexivity; simpl; tauto.
Defined.

(** X2.  The keys of the mapping are entries of the table, each token of a
    bucket begins with the key of the bucket, there are at most eight
    buckets, and a call is emitted with nine arguments at most. *)
Theorem buckets_are_bounded (classNames : list string) :
  let sep := separateClasses classNames in
  incl (JS.keys (mediaClassesMap sep)) mediaPrefixes
  /\ (forall p bucket cls,
         In (p, bucket) (mediaClassesMap sep) -> In cls bucket ->
         exists rest, cls = (p ++ rest)%string)
  /\ List.length (mediaClassesMap sep) <= 8
  /\ List.length (classPartsOf sep) <= 9.
Proof.
  cbv zeta.
  assert (Hincl : incl (JS.keys (mediaClassesMap (separateClasses classNames)))
                       mediaPrefixes).
  { rewrite separateClasses_spec. cbn [mediaClassesMap specOf].
    rewrite keys_bucketsOf. intros p Hp.
    rewrite firsts_In, prefixesOf_In in Hp. destruct Hp as (cls & _ & Hc).
    now apply (proj1 (findPrefix_spec _ _)) in Hc. }
  assert (Hlen : List.length (mediaClassesMap (separateClasses classNames)) <= 8).
  { change 8 with (List.length mediaPrefixes).
    replace (List.length (mediaClassesMap (separateClasses classNames)))
      with (List.length (JS.keys (mediaClassesMap (separateClasses classNames))))
      by apply length_map.
    apply NoDup_incl_length; [|exact Hincl].
    rewrite separateClasses_spec. cbn [mediaClassesMap specOf].
    rewrite keys_bucketsOf. apply firsts_NoDup. }
  split; [exact Hincl|]. split; [|split; [exact Hlen|]].
  - intros p bucket cls H Hc. rewrite separateClasses_spec in H.
    apply bucketsOf_In in H. destruct H as [-> _].
    apply filter_In in Hc. destruct Hc as [_ Hc].
    rewrite inBucket_true, findPrefix_spec in Hc. destruct Hc as [_ Hc].
    now apply (proj1 (prefix_split _ _)).
  - rewrite classPartsOf_spec, length_map. unfold groupsOf.
    rewrite length_app, length_map.
    destruct (Nat.ltb 0 _); simpl; lia.
Qed.

Lemma rewriteClassNames_None (classNames : list string) :
  rewriteClassNames classNames = None
  <-> Forall (fun cls => findPrefix cls = None) classNames.
Proof.
  rewrite rewriteClassNames_spec, separateClasses_spec.
  cbn [mediaClassesMap specOf]. unfold bucketsOf. split.
  - intros H. apply Forall_forall. intros cls Hc.
    destruct (findPrefix cls) as [p|] eqn:Hp; [|reflexivity]. exfalso.
    assert (Hin : In p (firsts (prefixesOf classNames))).
    { rewrite firsts_In, prefixesOf_In. eauto. }
    destruct (firsts (prefixesOf classNames)); [contradiction | discriminate].
  - intros H. rewrite Forall_forall in H.
    destruct (firsts (prefixesOf classNames)) as [|p ks] eqn:E; [reflexivity|].
    exfalso. assert (Hin : In p (firsts (prefixesOf classNames)))
      by (rewrite E; now left).
    rewrite firsts_In, prefixesOf_In in Hin. destruct Hin as (cls & Hc & Hp).
    rewrite (H cls Hc) in Hp. discriminate.
Qed.

(** X3.  An attribute gets no edit exactly when its value has none of the
    three shapes or none of its tokens begins with an entry of the table. *)
Theorem no_edit_iff_no_media_class (offset : nat) (n : Node) :
  plannedEdit offset n = None
  <-> extractClassNames n = None
      \/ exists classNames s e,
           extractClassNames n = Some (classNames, s, e)
           /\ forall cls p, In cls classNames -> In p mediaPrefixes ->
                            JS.startsWith cls p = false.
Proof.
  assert (Hnone : forall cls,
             findPrefix cls = None
             <-> forall p, In p mediaPrefixes -> JS.startsWith cls p = false).
  { intros cls. split.
    - intros H p Hp. destruct (JS.startsWith cls p) eqn:E; [|reflexivity].
      assert (findPrefix cls = Some p) by (apply findPrefix_spec; auto).
      congruence.
    - intros H. destruct (findPrefix cls) as [p|] eqn:E; [|reflexivity].
      apply findPrefix_spec in E. destruct E as [Hp Hs].
      rewrite (H p Hp) in Hs. discriminate. }
  unfold plannedEdit.
  destruct (extractClassNames n) as [[[classNames s] e]|]; [|tauto].
  split.
  - intros H. right. exists classNames, s, e. split; [reflexivity|].
    destruct (rewriteClassNames classNames) eqn:E; [discriminate|].
    apply rewriteClassNames_None in E. rewrite Forall_forall in E.
    intros cls p Hc. now apply Hnone, E.
  - intros [H|(c' & s' & e' & H & Hall)]; [discriminate|].
    inversion H; subst.
    assert (E : rewriteClassNames c' = None).
    { apply rewriteClassNames_None, Forall_forall. intros cls Hc.
      apply Hnone. intros p. now apply Hall. }
    now rewrite E.
Qed.

Lemma bucketAt_spec (classNames : list string) (p : string) :
  JS.get (mediaClassesMap (separateClasses classNames)) p
  = if existsb (inBucket p) classNames
    then Some (filter (inBucket p) classNames) else None.
Proof.
  rewrite separateClasses_spec. cbn [mediaClassesMap specOf]. unfold bucketsOf.
  destruct (existsb (inBucket p) classNames) eqn:E.
  - apply (get_tab_in (fun q => filter (inBucket q) classNames)).
    rewrite firsts_In, prefixesOf_In. apply existsb_exists in E.
    destruct E as (cls & Hc & Hp). exists cls. split; [assumption|].
    now apply inBucket_true.
  - apply (get_tab_out (fun q => filter (inBucket q) classNames)).
    rewrite firsts_In, prefixesOf_In. intros (cls & Hc & Hp).
    apply inBucket_true in Hp.
    assert (existsb (inBucket p) classNames = true)
      by (apply existsb_exists; eauto). congruence.
Qed.

(** X4.  Reading the mapping at a prefix gives the tokens that begin with
    it, in token order, and gives nothing when no token begins with it: a
    bucket that is present is never empty. *)
Theorem lookup_of_a_bucket (classNames : list string) (p : string) :
  In p mediaPrefixes ->
  let sep := separateClasses classNames in
  (JS.get (mediaClassesMap sep) p = None
   <-> forall cls, In cls classNames -> JS.startsWith cls p = false)
  /\ (forall bucket,
         JS.get (mediaClassesMap sep) p = Some bucket ->
         bucket <> []
         /\ bucket = filter (fun cls => JS.startsWith cls p) classNames).
Proof.
  intros Hp. cbv zeta. rewrite bucketAt_spec.
  assert (Hb : forall cls, inBucket p cls = JS.startsWith cls p).
  { intros cls. destruct (JS.startsWith cls p) eqn:E.
    - rewrite inBucket_true, findPrefix_spec. auto.
    - destruct (inBucket p cls) eqn:E'; [|reflexivity].
      rewrite inBucket_true, findPrefix_spec in E'. destruct E'. congruence. }
  destruct (existsb (inBucket p) classNames) eqn:E; split.
  - split; [discriminate|]. intros H. apply existsb_exists in E.
    destruct E as (cls & Hc & Hin). rewrite Hb, (H cls Hc) in Hin.
    discriminate.
  - intros bucket H. inversion H. split.
    + apply existsb_exists in E. destruct E as (cls & Hc & Hin).
      intros Hnil.
      assert (Hf : In cls (filter (inBucket p) classNames))
        by (apply filter_In; auto).
      rewrite Hnil in Hf. contradiction.
    + apply filter_ext. exact Hb.
  - split; [|reflexivity]. intros _ cls Hc.
    rewrite <- Hb. destruct (inBucket p cls) eqn:E'; [|reflexivity].
    assert (existsb (inBucket p) classNames = true)
      by (apply existsb_exists; eauto). congruence.
  - intros bucket H. discriminate.
Qed.

Lemma lookup_of_a_bucket_witness :
  In "sm:" mediaPrefixes
  /\ JS.get (mediaClassesMap (separateClasses ["p-4"; "sm:p-8"; "sm:m-2"])) "sm:"
     = Some ["sm:p-8"; "sm:m-2"]
  /\ ["sm:p-8"; "sm:m-2"]
     = filter (fun cls => JS.startsWith cls "sm:") ["p-4"; "sm:p-8"; "sm:m-2"].
Proof.
  assert (H : In "sm:" mediaPrefixes) by (simpl; tauto).
  split; [exact H|]. split; [reflexivity|].
  apply (proj2 (lookup_of_a_bucket ["p-4"; "sm:p-8"; "sm:m-2"] "sm:" H)).
  reflexivity.
Defined.

(** X5.  Classifying two token lists put end to end gives the base classes
    of the first followed by those of the second, and under every prefix the
    bucket of the first followed by the bucket of the second. *)
Theorem separateClasses_app (a b : list string) :
  baseClasses (separateClasses (a ++ b))
  = baseClasses (separateClasses a) ++ baseClasses (separateClasses b)
  /\ forall p,
       bucketAt (separateClasses (a ++ b)) p
       = bucketAt (separateClasses a) p ++ bucketAt (separateClasses b) p.
Proof.
  split.
  - rewrite !separateClasses_spec. simpl. apply filter_app.
  - intros p. unfold bucketAt. rewrite !bucketAt_spec, existsb_app, filter_app.
    assert (H : forall l, existsb (inBucket p) l = false ->
                          filter (inBucket p) l = []).
    { intros l Hl. apply filter_none. intros x Hx.
      destruct (inBucket p x) eqn:E; [|reflexivity].
      assert (existsb (inBucket p) l = true)
        by (apply existsb_exists; eauto). congruence. }
    destruct (existsb (inBucket p) a) eqn:Ea;
      destruct (existsb (inBucket p) b) eqn:Eb; simpl;
      rewrite ?(H a Ea), ?(H b Eb), ?app_nil_r; reflexivity.
Qed.

(** ** The tokens of a value *)

Lemma splitFrom_nonempty (b : bool) (cur s : string) :
  JS.splitFrom b cur s <> [].
Proof.
  revert b cur. induction s as [|c s IH]; intros b cur; simpl; [discriminate|].
  destruct (JS.isWhiteSpace c); [|apply IH].
  destruct b; [apply IH | discriminate].
Qed.

Lemma endsWithWhiteSpace_cons (c : ascii) (r : string) :
  endsWithWhiteSpace (String c r)
  = if isEmptyString r then JS.isWhiteSpace c else endsWithWhiteSpace r.
Proof. now destruct r. Qed.

Lemma splitFrom_empty_tokens (s : string) :
  (forall cur, isEmptyString cur = false ->
               existsb isEmptyString (JS.splitFrom false cur s)
               = endsWithWhiteSpace s)
  /\ existsb isEmptyString (JS.splitFrom true EmptyString s)
     = isEmptyString s || endsWithWhiteSpace s.
Proof.
  induction s as [|c r [IHa IHb]]; [split; [intros cur H; simpl; now rewrite H | reflexivity]|].
  split.
  - intros cur H. rewrite endsWithWhiteSpace_cons. simpl JS.splitFrom.
    destruct (JS.isWhiteSpace c) eqn:Hc.
    + cbn [existsb]. rewrite H, IHb. simpl. now destruct r.
    + rewrite IHa by apply isEmptyString_snoc. now destruct r.
  - rewrite endsWithWhiteSpace_cons. simpl JS.splitFrom.
    destruct (JS.isWhiteSpace c) eqn:Hc.
    + rewrite IHb. now destruct r.
    + rewrite IHa by reflexivity. now destruct r.
Qed.

(** X6.  The token list of a value holds an empty token exactly when the
    value is empty or begins or ends with white space. *)
Theorem empty_token_iff_white_space_at_an_end (text : string) :
  existsb isEmptyString (JS.split text)
  = isEmptyString text || startsWithWhiteSpace text || endsWithWhiteSpace text.
Proof.
  unfold JS.split. destruct text as [|c r]; [reflexivity|].
  rewrite endsWithWhiteSpace_cons. simpl.
  destruct (JS.isWhiteSpace c) eqn:Hc; [reflexivity|].
  rewrite (proj1 (splitFrom_empty_tokens r)) by reflexivity. now destruct r.
Qed.

Lemma concat_nosep_cons (x : string) (l : list string) :
  l <> [] ->
  String.concat EmptyString (x :: l) = (x ++ String.concat EmptyString l)%string.
Proof. destruct l; [congruence | reflexivity]. Qed.

Lemma splitFrom_concat (b : bool) (cur s : string) :
  String.concat EmptyString (JS.splitFrom b cur s)
  = (cur ++ stripWhiteSpace s)%string.
Proof.
  revert b cur. induction s as [|c s IH]; intros b cur; simpl.
  - now rewrite append_empty_r.
  - destruct (JS.isWhiteSpace c).
    + destruct b; [apply IH|].
      rewrite concat_nosep_cons by apply splitFrom_nonempty. now rewrite IH.
    + rewrite IH, append_assoc. reflexivity.
Qed.

(** X7.  Splitting loses the white space and nothing else: the tokens put
    end to end are the value without its white space characters, and no
    token holds a white space character. *)
Theorem split_keeps_all_but_white_space (text : string) :
  String.concat EmptyString (JS.split text) = stripWhiteSpace text
  /\ Forall (fun t => stripWhiteSpace t = t) (JS.split text).
Proof.
  split; [apply splitFrom_concat|].
  eapply Forall_impl; [|apply (proj1 (split_tokens text))].
  intros t. induction t as [|c t IH]; simpl; [reflexivity|].
  rewrite andb_true_iff, negb_true_iff. intros [Hc Ht].
  now rewrite Hc, IH.
Qed.

(** X8.  Joining a non-empty list of tokens with single spaces and
    splitting the result gives the list back exactly when no token holds
    white space and no token but the first and the last is empty. *)
Theorem split_join_round_trip (g : list string) :
  g <> [] ->
  (JS.split (JS.join " " g) = g
   <-> Forall (fun t => noWhiteSpace t = true) g
       /\ emptyOnlyAtEnds g = true).
Proof.
  intros Hne. split.
  - intros H. rewrite <- H. apply split_tokens.
  - intros [Hws He]. now apply split_join.
Qed.

Lemma split_join_round_trip_witness :
  JS.split (JS.join " " [EmptyString; "p-4"; "sm:p-8"; EmptyString])
  = [EmptyString; "p-4"; "sm:p-8"; EmptyString].
Proof.
  apply (split_join_round_trip [EmptyString; "p-4"; "sm:p-8"; EmptyString]);
    [discriminate|].
  split; [repeat constructor | reflexivity].
Defined.

(** X9.  A value always gives one token at least, and joining its tokens
    with single spaces gives a value with the same tokens. *)
Theorem split_of_joined_tokens (text : string) :
  JS.split text <> []
  /\ JS.split (JS.join " " (JS.split text)) = JS.split text.
Proof.
  split; [apply splitFrom_nonempty|].
  apply split_join; [apply splitFrom_nonempty | apply split_tokens
                     | apply split_tokens].
Qed.

(** ** The rewriter applied again and again *)

Lemma isEmptyString_true (s : string) : isEmptyString s = true -> s = EmptyString.
Proof. destruct s; [reflexivity | discriminate]. Qed.

Lemma join_split_members_inRun (g : list string) :
  Forall (fun t => noWhiteSpace t = true) g ->
  forall t, In t (JS.splitFrom true EmptyString (JS.join " " g)) ->
            t = EmptyString \/ In t g.
Proof.
  induction g as [|x g IH]; intros Hws t Ht.
  - simpl in Ht. destruct Ht as [<-|[]]. now left.
  - inversion Hws as [|? ? Hx Hg]; subst. destruct g as [|y g].
    + simpl in Ht. rewrite <- (append_empty_r x) in Ht at 1.
      rewrite (splitFrom_token _ _ _ _ Hx) in Ht. simpl in Ht.
      destruct Ht as [<-|[]]. right. now left.
    + change (JS.join " " (x :: y :: g))
        with (x ++ String " "%char (JS.join " " (y :: g)))%string in Ht.
      rewrite (splitFrom_token _ _ _ _ Hx), splitFrom_space in Ht.
      cbn [andb append] in Ht.
      destruct (isEmptyString x) eqn:Ex.
      * apply isEmptyString_true in Ex. subst x.
        destruct (IH Hg t Ht) as [H|H]; [now left | right; now right].
      * destruct Ht as [<-|Ht]; [right; now left|].
        destruct (IH Hg t Ht) as [H|H]; [now left | right; now right].
Qed.

Lemma join_split_members (g : list string) :
  Forall (fun t => noWhiteSpace t = true) g ->
  forall t, In t (JS.split (JS.join " " g)) -> t = EmptyString \/ In t g.
Proof.
  intros Hws t Ht. unfold JS.split in Ht. destruct g as [|x g].
  - simpl in Ht. destruct Ht as [<-|[]]. now left.
  - inversion Hws as [|? ? Hx Hg]; subst. destruct g as [|y g].
    + simpl in Ht. rewrite <- (append_empty_r x) in Ht at 1.
      rewrite (splitFrom_token _ _ _ _ Hx) in Ht. simpl in Ht.
      destruct Ht as [<-|[]]. right. now left.
    + change (JS.join " " (x :: y :: g))
        with (x ++ String " "%char (JS.join " " (y :: g)))%string in Ht.
      rewrite (splitFrom_token _ _ _ _ Hx), splitFrom_space in Ht.
      cbn [andb append] in Ht.
      destruct Ht as [<-|Ht]; [right; now left|].
      destruct (join_split_members_inRun _ Hg t Ht) as [H|H];
        [now left | right; now right].
Qed.

Lemma bucket_groups_split (classNames : list string) :
  Forall (fun t => noWhiteSpace t = true) classNames ->
  flat_map JS.split
           (map (fun kv => JS.join " " (snd kv)) (bucketsOf classNames))
  = List.concat (map (fun p => filter (inBucket p) classNames)
                     (firsts (prefixesOf classNames))).
Proof.
  intros Hws. unfold bucketsOf. rewrite map_map. cbn [snd].
  assert (Hk : forall p, In p (firsts (prefixesOf classNames)) ->
                         In p (prefixesOf classNames))
    by (intros p; apply firsts_In).
  induction (firsts (prefixesOf classNames)) as [|k ks IH]; [reflexivity|].
  cbn [map flat_map List.concat].
  rewrite IH by (intros p Hp; apply Hk; now right).
  f_equal. apply split_join.
  - apply bucket_nonempty. apply Hk. now left.
  - now apply Forall_filter.
  - apply bucket_emptyOnlyAtEnds.
Qed.

Lemma separateClasses_base_then_buckets (base classNames : list string) :
  (forall t, In t base -> isBase t = true) ->
  separateClasses
    (base ++ List.concat (map (fun p => filter (inBucket p) classNames)
                              (firsts (prefixesOf classNames))))
  = mkSeparated base (bucketsOf classNames).
Proof.
  intros Hb. rewrite separateClasses_spec. unfold specOf. f_equal.
  - rewrite filter_app, (filter_all _ _ Hb).
    replace (filter isBase (List.concat _)) with (@nil string);
      [apply app_nil_r|].
    symmetry. induction (firsts (prefixesOf classNames)) as [|k ks IH];
      [reflexivity|].
    cbn [map List.concat]. now rewrite filter_app, filter_bucket_base.
  - assert (Hpre : prefixesOf base = []).
    { unfold prefixesOf. induction base as [|c l IH]; [reflexivity|]. simpl.
      pose proof (Hb c (or_introl eq_refl)) as Hc. apply isBase_true in Hc.
      rewrite Hc. simpl. apply IH. intros t Ht. apply Hb. now right. }
    unfold bucketsOf at 1. rewrite prefixesOf_app, Hpre. cbn [app].
    rewrite firsts_of_buckets
      by (try apply firsts_NoDup; intros p; apply firsts_In).
    unfold bucketsOf. apply map_ext_in. intros p Hp. f_equal.
    rewrite filter_app, buckets_filter by apply firsts_NoDup.
    replace (filter (inBucket p) base) with (@nil string).
    + simpl. destruct (in_dec string_dec p _); [reflexivity | contradiction].
    + symmetry. apply filter_none. intros t Ht. specialize (Hb t Ht).
      apply isBase_true in Hb. unfold inBucket. now rewrite Hb.
Qed.

Lemma groupTokens_spec (classNames : list string) :
  Forall (fun t => noWhiteSpace t = true) classNames ->
  groupTokens classNames
  = match filter isBase classNames with
    | [] => []
    | _ :: _ => JS.split (JS.join " " (filter isBase classNames))
    end
    ++ List.concat (map (fun p => filter (inBucket p) classNames)
                        (firsts (prefixesOf classNames))).
Proof.
  intros Hws. unfold groupTokens, groupsOf. rewrite separateClasses_spec.
  cbn [baseClasses mediaClassesMap specOf].
  rewrite flat_map_app, (bucket_groups_split _ Hws). f_equal.
  destruct (filter isBase classNames); [reflexivity|].
  cbn [List.length Nat.ltb Nat.leb flat_map]. apply app_nil_r.
Qed.

Lemma groupTokens_classified (classNames : list string) :
  Forall (fun t => noWhiteSpace t = true) classNames ->
  exists base,
    separateClasses (groupTokens classNames)
    = mkSeparated base (bucketsOf classNames)
    /\ Forall (fun t => noWhiteSpace t = true) base
    /\ emptyOnlyAtEnds base = true
    /\ groupTokens classNames
       = base ++ List.concat (map (fun p => filter (inBucket p) classNames)
                                  (firsts (prefixesOf classNames))).
Proof.
  intros Hws. rewrite (groupTokens_spec _ Hws).
  set (base := match filter isBase classNames with
               | [] => []
               | _ :: _ => JS.split (JS.join " " (filter isBase classNames))
               end).
  assert (Hb : forall t, In t base -> isBase t = true).
  { intros t Ht. unfold base in Ht.
    destruct (filter isBase classNames) as [|x l] eqn:E; [contradiction|].
    rewrite <- E in Ht. apply join_split_members in Ht.
    - destruct Ht as [->|Ht]; [reflexivity|].
      apply filter_In in Ht. tauto.
    - now apply Forall_filter. }
  exists base. split; [now apply separateClasses_base_then_buckets|].
  split; [|split; [|reflexivity]].
  - unfold base. destruct (filter isBase classNames);
      [constructor | apply split_tokens].
  - unfold base. destruct (filter isBase classNames);
      [reflexivity | apply split_tokens].
Qed.

Lemma groupTokens_fixed (classNames : list string) :
  Forall (fun t => noWhiteSpace t = true) classNames ->
  groupTokens (groupTokens classNames) = groupTokens classNames
  /\ mediaClassesMap (separateClasses (groupTokens classNames))
     = mediaClassesMap (separateClasses classNames)
  /\ Forall (fun t => noWhiteSpace t = true) (groupTokens classNames).
Proof.
  intros Hws.
  destruct (groupTokens_classified _ Hws) as (base & Hsep & Hbws & Hbe & Hnext).
  split; [|split].
  - unfold groupTokens at 1. rewrite Hsep. unfold groupsOf.
    cbn [baseClasses mediaClassesMap].
    rewrite flat_map_app, (bucket_groups_split _ Hws), Hnext. f_equal.
    destruct base as [|x l] eqn:E; [reflexivity|].
    cbn [List.length Nat.ltb Nat.leb flat_map]. rewrite app_nil_r.
    apply split_join; [discriminate | assumption | assumption].
  - rewrite Hsep, separateClasses_spec. reflexivity.
  - unfold groupTokens.
    induction (groupsOf (separateClasses classNames)) as [|g gs IH];
      [constructor|].
    cbn [flat_map]. apply Forall_app. split; [apply split_tokens | exact IH].
Qed.

(** What the loop reads from a value that is an emitted call read back. *)
Lemma readsBack_extract (newClassName : string) (texts : list string)
    (la nm : Loc) (value : Node) :
  readEmitted newClassName = Some texts ->
  readsBack newClassName value ->
  extractClassNames (JsxAttribute la nm (Some value))
  = Some (flat_map JS.split texts, getStart value, getEnd value).
Proof.
  intros Hread (l & lc & callee & args & texts' & -> & Hc & Ht & Ha).
  rewrite Hread in Ht. inversion Ht; subst texts'.
  unfold extractClassNames. apply String.eqb_eq in Hc. rewrite Hc.
  now rewrite (collectArguments_texts _ _ _ Ha).
Qed.

(** X10.  Take an attribute that is rewritten and whose tokens hold no
    backslash and no double quote, whatever the padding of its value.  The
    tokens that the next run reads from the emitted call are rewritten to a
    text that settles: from the call that this text reads back as, the same
    tokens are read and the same text is emitted again, run after run; and
    the buckets are those of the first classification. *)
Theorem rewriting_settles_after_one_pass (n : Node)
    (classNames : list string) (s e : nat) (newClassName : string) :
  extractClassNames n = Some (classNames, s, e) ->
  Forall (fun t => needsNoEscape t = true) classNames ->
  rewriteClassNames classNames = Some newClassName ->
  exists tokens settled,
    readBackTokens classNames = Some tokens
    /\ readBackTokens tokens = Some tokens
    /\ mediaClassesMap (separateClasses tokens)
       = mediaClassesMap (separateClasses classNames)
    /\ (forall offset la nm value,
           readsBack newClassName value ->
           extractClassNames (JsxAttribute la nm (Some value))
           = Some (tokens, getStart value, getEnd value)
           /\ plannedEdit offset (JsxAttribute la nm (Some value))
              = Some (getStart value + offset, getEnd value + offset, settled))
    /\ (forall offset la nm value,
           readsBack settled value ->
           extractClassNames (JsxAttribute la nm (Some value))
           = Some (tokens, getStart value, getEnd value)
           /\ plannedEdit offset (JsxAttribute la nm (Some value))
              = Some (getStart value + offset, getEnd value + offset, settled)).
Proof.
  intros Hx Hn Hr.
  pose proof (extractClassNames_noWhiteSpace _ _ _ _ Hx) as Hws.
  destruct (groupTokens_fixed _ Hws) as (Hfix & Hmap & Hws2).
  pose proof (groupTokens_needNoEscape _ Hn) as Hn2.
  assert (Hr2 : exists settled,
             rewriteClassNames (groupTokens classNames) = Some settled).
  { rewrite rewriteClassNames_spec, Hmap.
    rewrite rewriteClassNames_spec in Hr.
    destruct (mediaClassesMap (separateClasses classNames));
      [discriminate | eauto]. }
  destruct Hr2 as [settled Hr2].
  pose proof (readEmitted_groups _ _ Hws Hn Hr) as Hread.
  pose proof (readEmitted_groups _ _ Hws2 Hn2 Hr2) as Hread2.
  exists (groupTokens classNames), settled.
  split; [|split; [|split; [exact Hmap|split]]].
  - unfold readBackTokens. now rewrite Hr, Hread.
  - unfold readBackTokens. rewrite Hr2, Hread2. f_equal. exact Hfix.
  - intros offset la nm value Hv.
    pose proof (readsBack_extract _ _ la nm _ Hread Hv) as Hext.
    fold (groupTokens classNames) in Hext.
    split; [exact Hext|]. unfold plannedEdit. now rewrite Hext, Hr2.
  - intros offset la nm value Hv.
    pose proof (readsBack_extract _ _ la nm _ Hread2 Hv) as Hext.
    fold (groupTokens (groupTokens classNames)) in Hext. rewrite Hfix in Hext.
    split; [exact Hext|]. unfold plannedEdit. now rewrite Hext, Hr2.
Qed.

Lemma rewriting_settles_after_one_pass_witness :
  extractClassNames paddedCall
  = Some (["a"; EmptyString; EmptyString; "b"; "sm:c"], 0, 0)
  /\ rewriteClassNames ["a"; EmptyString; EmptyString; "b"; "sm:c"]
     = Some (paddedReplacement "a   b")
  /\ readBackTokens ["a"; EmptyString; EmptyString; "b"; "sm:c"]
     = Some ["a"; "b"; "sm:c"]
  /\ rewriteClassNames ["a"; "b"; "sm:c"] = Some (paddedReplacement "a b")
  /\ exists tokens settled,
       readBackTokens ["a"; EmptyString; EmptyString; "b"; "sm:c"]
       = Some tokens
       /\ readBackTokens tokens = Some tokens
       /\ mediaClassesMap (separateClasses tokens)
          = mediaClassesMap
              (separateClasses ["a"; EmptyString; EmptyString; "b"; "sm:c"])
       /\ (forall offset la nm value,
              readsBack (paddedReplacement "a   b") value ->
              extractClassNames (JsxAttribute la nm (Some value))
              = Some (tokens, getStart value, getEnd value)
              /\ plannedEdit offset (JsxAttribute la nm (Some value))
                 = Some (getStart value + offset, getEnd value + offset,
                         settled))
       /\ (forall offset la nm value,
              readsBack settled value ->
              extractClassNames (JsxAttribute la nm (Some value))
              = Some (tokens, getStart value, getEnd value)
              /\ plannedEdit offset (JsxAttribute la nm (Some value))
                 = Some (getStart value + offset, getEnd value + offset,
                         settled)).
Proof.
  split; [reflexivity|]. split; [reflexivity|]. split; [reflexivity|].
  split; [reflexivity|].
  apply (rewriting_settles_after_one_pass
           paddedCall ["a"; EmptyString; EmptyString; "b"; "sm:c"] 0 0
           (paddedReplacement "a   b"));
    [reflexivity | repeat constructor | reflexivity].
Defined.

(** A token with a backslash is written between the quotes as it is: the
    emitted literal holds an escape, and is outside the texts that are known
    to read back unchanged. *)
Example backslash_is_emitted_unescaped :
  let token := ("sm:a" ++ String (ascii_of_nat 92) "nb")%string in
  needsNoEscape token = false
  /\ rewriteClassNames [token]
     = Some (newClassNameOf [(DQ ++ token ++ DQ)%string])
  /\ readEmitted (newClassNameOf [(DQ ++ token ++ DQ)%string]) = None.
Proof. repeat split. Qed.


(** ** The scan and the shapes *)

Lemma collectArguments_spec (args : list Node) (acc : list string) :
  collectArguments args acc
  = if forallb isStringLiteral args
    then Some (acc ++ flat_map (fun a => match literalText a with
                                         | Some t => JS.split t
                                         | None => []
                                         end) args)
    else None.
Proof.
  revert acc. induction args as [|a args IH]; intros acc; simpl.
  - now rewrite app_nil_r.
  - destruct a; try reflexivity. simpl. rewrite IH.
    destruct (forallb isStringLiteral args); [|reflexivity].
    now rewrite app_assoc.
Qed.

(** X11.  A call between braces is read as a whole or not at all: its
    tokens are those of all its arguments, in order, when the callee is
    written twJoin and every argument is a string literal; one argument of
    another kind, or another callee, and the attribute is skipped. *)
Theorem twJoin_call_is_all_or_nothing (la nm l lc : Loc) (callee : Node)
    (dotDotDotToken questionDotToken : option Loc)
    (typeArguments args : list Node) :
  extractClassNames
    (JsxAttribute la nm
       (Some (JsxExpression l dotDotDotToken
                (Some (CallExpression lc callee questionDotToken
                                      typeArguments args)))))
  = if String.eqb (getText callee) "twJoin" && forallb isStringLiteral args
    then Some (flat_map (fun a => match literalText a with
                                  | Some t => JS.split t
                                  | None => []
                                  end) args,
               locStart l, locEnd l)
    else None.
Proof.
  simpl. destruct (String.eqb (getText callee) "twJoin"); [|reflexivity].
  rewrite collectArguments_spec. simpl.
  destruct (forallb isStringLiteral args); reflexivity.
Qed.

Lemma subnodes_tokenNodes (q : option Loc) :
  flat_map subnodes (tokenNodes q) = tokenNodes q.
Proof. now destruct q. Qed.

Lemma subnodes_children (n : Node) :
  subnodes n = n :: flat_map subnodes (forEachChild n).
Proof.
  destruct n as [l|l t|l d [x|]|l f q targs args|l nm [x|]|l cs]; simpl;
    rewrite ?flat_map_app, ?subnodes_tokenNodes; simpl;
    rewrite ?app_nil_r; reflexivity.
Qed.

Lemma filter_flat_map {A B : Type} (f : B -> bool) (g : A -> list B)
    (l : list A) :
  filter f (flat_map g l) = flat_map (fun x => filter f (g x)) l.
Proof.
  induction l as [|x l IH]; simpl; [reflexivity|].
  now rewrite filter_app, IH.
Qed.

Lemma flat_map_ext_Forall {A B : Type} (f g : A -> list B) (l : list A) :
  Forall (fun x => f x = g x) l -> flat_map f l = flat_map g l.
Proof. induction 1 as [|x l Hx _ IH]; simpl; [reflexivity | now rewrite Hx, IH]. Qed.

Lemma findClassNames_subnodes (n : Node) :
  findClassNames n = filter isClassNameAttribute (subnodes n).
Proof.
  induction n as [n IH] using Node_children_ind.
  rewrite findClassNames_children, subnodes_children.
  cbn [filter]. rewrite filter_flat_map, (flat_map_ext_Forall _ _ _ IH).
  now destruct (isClassNameAttribute n).
Qed.

Lemma literal_findClassNames_tokenNodes (q : option Loc) :
  flat_map LiteralOnlyCommand.findClassNames (tokenNodes q) = [].
Proof. now destruct q. Qed.

Lemma literal_findClassNames_children (n : Node) :
  LiteralOnlyCommand.findClassNames n
  = (if LiteralOnlyCommand.isPushed n then [n] else [])
    ++ flat_map LiteralOnlyCommand.findClassNames (forEachChild n).
Proof.
  destruct n as [l|l t|l d [x|]|l f q targs args|l nm [x|]|l cs]; simpl;
    rewrite ?flat_map_app, ?literal_findClassNames_tokenNodes; simpl;
    rewrite ?app_nil_r; reflexivity.
Qed.

Lemma literal_findClassNames_subnodes (n : Node) :
  LiteralOnlyCommand.findClassNames n
  = filter LiteralOnlyCommand.isPushed (subnodes n).
Proof.
  induction n as [n IH] using Node_children_ind.
  rewrite literal_findClassNames_children, subnodes_children.
  cbn [filter]. rewrite filter_flat_map, (flat_map_ext_Forall _ _ _ IH).
  now destruct (LiteralOnlyCommand.isPushed n).
Qed.

Lemma filter_filter_and {A : Type} (f g : A -> bool) (l : list A) :
  filter f (filter g l) = filter (fun x => g x && f x) l.
Proof.
  induction l as [|x l IH]; simpl; [reflexivity|].
  destruct (g x); simpl; [destruct (f x)|]; now rewrite IH.
Qed.

Lemma literal_scan_filter (n : Node) :
  LiteralOnlyCommand.findClassNames n
  = filter hasLiteralValue (findClassNames n).
Proof.
  rewrite literal_findClassNames_subnodes, findClassNames_subnodes,
    filter_filter_and.
  apply filter_ext. intros a.
  destruct a as [| | | |l nm [i|]|]; reflexivity.
Qed.

(** X12.  The scan visits every node of the tree, also below an attribute
    it has taken and below a value it cannot rewrite: it returns the
    attributes named className that have a value, in the order in which a
    walk from parent to children meets them, and nothing else. *)
Theorem scan_takes_every_class_attribute (sourceFile : Node) :
  findClassNames sourceFile
  = filter isClassNameAttribute (subnodes sourceFile)
  /\ (forall a,
         In a (findClassNames sourceFile)
         <-> In a (subnodes sourceFile)
             /\ exists l nm initializer,
                  a = JsxAttribute l nm (Some initializer)
                  /\ locText nm = "className").
Proof.
  split; [apply findClassNames_subnodes|].
  intros a. rewrite findClassNames_subnodes, filter_In. split.
  - intros [Hin Ha]. split; [assumption|].
    destruct a as [| | | |l nm [i|]|]; try discriminate.
    exists l, nm, i. split; [reflexivity|]. now apply String.eqb_eq.
  - intros [Hin (l & nm & i & -> & Hn)]. split; [assumption|].
    simpl. now apply String.eqb_eq.
Qed.

(** ** The earlier variant beside the later one *)

Lemma literal_extract_agrees (a : Node) (text : string) (s e : nat) :
  LiteralOnlyCommand.extractClassNameText a = Some (text, s, e) ->
  extractClassNames a = Some (JS.split text, s, e).
Proof.
  destruct a as [| | | |l nm [i|]|]; try discriminate. simpl.
  destruct i as [|l1 t|l1 d1 [x|]| | |]; try discriminate.
  - intros H. now inversion H.
  - destruct x; try discriminate. intros H. now inversion H.
Qed.

(** X13.  The scan of the earlier variant returns the attributes of the
    later scan whose value is a string literal, bare or between braces, in
    the same order; each of them passes the test of shape made again in the
    loop, whose [continue] is never taken, and both variants read the same
    tokens and the same span from it. *)
Theorem literal_scan_is_a_filter (sourceFile : Node) :
  LiteralOnlyCommand.findClassNames sourceFile
  = filter hasLiteralValue (findClassNames sourceFile)
  /\ forall a,
       In a (LiteralOnlyCommand.findClassNames sourceFile) ->
       exists text s e,
         LiteralOnlyCommand.extractClassNameText a = Some (text, s, e)
         /\ extractClassNames a = Some (JS.split text, s, e).
Proof.
  split; [apply literal_scan_filter|].
  intros a Ha. rewrite literal_scan_filter in Ha. apply filter_In in Ha.
  destruct Ha as [_ Ha].
  destruct a as [| | | |l nm [i|]|]; try discriminate. simpl in Ha.
  destruct i as [|l1 t|l1 d1 [x|]| | |]; try discriminate.
  - exists t, (getStart (StringLiteral l1 t)), (getEnd (StringLiteral l1 t)).
    split; reflexivity.
  - destruct x as [|l2 t| | | |]; try discriminate.
    exists t, (locStart l1), (locEnd l1). split; reflexivity.
Qed.

Lemma rewriteClassNameText_spec (classNameText : string) :
  LiteralOnlyCommand.rewriteClassNameText classNameText
  = match filter (fun cls => negb (isBase cls)) (JS.split classNameText) with
    | [] => None
    | _ :: _ =>
        Some (newClassNameOf
                (match filter isBase (JS.split classNameText) with
                 | [] => []
                 | _ :: _ => [quoted (filter isBase (JS.split classNameText))]
                 end
                 ++ [quoted (filter (fun cls => negb (isBase cls))
                                    (JS.split classNameText))]))
    end.
Proof.
  unfold LiteralOnlyCommand.rewriteClassNameText.
  rewrite literalOnly_separateClasses.
  destruct (filter (fun cls => negb (isBase cls)) (JS.split classNameText));
    [reflexivity|].
  destruct (filter isBase (JS.split classNameText)); reflexivity.
Qed.

Lemma media_empty_iff (classNames : list string) :
  filter (fun cls => negb (isBase cls)) classNames = []
  <-> Forall (fun cls => findPrefix cls = None) classNames.
Proof.
  split.
  - intros H. apply Forall_forall. intros cls Hc.
    destruct (findPrefix cls) as [p|] eqn:E; [exfalso | reflexivity].
    assert (Hin : In cls (filter (fun c => negb (isBase c)) classNames)).
    { apply filter_In. split; [assumption|]. unfold isBase. now rewrite E. }
    rewrite H in Hin. contradiction.
  - intros H. apply filter_none. intros cls Hc. rewrite Forall_forall in H.
    unfold isBase. now rewrite (H cls Hc).
Qed.

(** X14.  The earlier variant emits one argument for the base classes, when
    there are any, and one for all the media classes together, in token
    order; it leaves a value alone exactly when the later variant does. *)
Theorem literal_variant_emits_two_groups (classNameText : string) :
  LiteralOnlyCommand.rewriteClassNameText classNameText
  = match filter (fun cls => negb (isBase cls)) (JS.split classNameText) with
    | [] => None
    | _ :: _ =>
        Some (newClassNameOf
                (match filter isBase (JS.split classNameText) with
                 | [] => []
                 | _ :: _ => [quoted (filter isBase (JS.split classNameText))]
                 end
                 ++ [quoted (filter (fun cls => negb (isBase cls))
                                    (JS.split classNameText))]))
    end
  /\ (LiteralOnlyCommand.rewriteClassNameText classNameText = None
      <-> rewriteClassNames (JS.split classNameText) = None).
Proof.
  split; [apply rewriteClassNameText_spec|].
  rewrite rewriteClassNames_None, <- media_empty_iff, rewriteClassNameText_spec.
  destruct (filter (fun cls => negb (isBase cls)) (JS.split classNameText));
    split; congruence.
Qed.

(** X15.  On a value whose media classes all begin with the same entry of
    the table, or that has none, the two variants plan the same edit: the
    same span and the same replacement text. *)
Theorem variants_agree_on_one_prefix (offset : nat) (n : Node) (text : string)
    (s e : nat) :
  LiteralOnlyCommand.extractClassNameText n = Some (text, s, e) ->
  List.length (mediaClassesMap (separateClasses (JS.split text))) <= 1 ->
  LiteralOnlyCommand.plannedEdit offset n = plannedEdit offset n.
Proof.
  intros Hx Hlen. unfold LiteralOnlyCommand.plannedEdit, plannedEdit.
  rewrite Hx, (literal_extract_agrees _ _ _ _ Hx).
  replace (LiteralOnlyCommand.rewriteClassNameText text)
    with (rewriteClassNames (JS.split text)); [reflexivity|].
  rewrite rewriteClassNameText_spec, rewriteClassNames_spec.
  revert Hlen. rewrite separateClasses_spec. unfold groupsOf.
  cbn [baseClasses mediaClassesMap specOf]. unfold bucketsOf.
  rewrite length_map. intros Hlen.
  destruct (firsts (prefixesOf (JS.split text))) as [|p ks] eqn:Ek.
  - assert (Hm : filter (fun cls => negb (isBase cls)) (JS.split text) = []).
    { apply media_empty_iff, Forall_forall. intros cls Hc.
      destruct (findPrefix cls) as [q|] eqn:E; [exfalso | reflexivity].
      assert (Hin : In q (firsts (prefixesOf (JS.split text))))
        by (rewrite firsts_In, prefixesOf_In; eauto).
      rewrite Ek in Hin. contradiction. }
    now rewrite Hm.
  - destruct ks; [|simpl in Hlen; lia].
    assert (Hm : filter (fun cls => negb (isBase cls)) (JS.split text)
                 = filter (inBucket p) (JS.split text)).
    { apply filter_ext_in. intros cls Hc. unfold isBase, inBucket.
      destruct (findPrefix cls) as [q|] eqn:E; [|reflexivity].
      assert (Hin : In q (firsts (prefixesOf (JS.split text))))
        by (rewrite firsts_In, prefixesOf_In; eauto).
      rewrite Ek in Hin. destruct Hin as [<-|[]].
      now rewrite String.eqb_refl. }
    rewrite Hm.
    assert (Hne : filter (inBucket p) (JS.split text) <> []).
    { apply bucket_nonempty. apply firsts_In. rewrite Ek. now left. }
    cbn [map app]. rewrite map_app. cbn [map snd].
    destruct (filter (inBucket p) (JS.split text)) as [|x l];
      [congruence|].
    destruct (filter isBase (JS.split text)); reflexivity.
Qed.

Lemma variants_agree_on_one_prefix_witness :
  LiteralOnlyCommand.extractClassNameText attribute1
  = Some ("p-4 sm:p-8 text-center", 15, 39)
  /\ LiteralOnlyCommand.plannedEdit 0 attribute1 = Some (15, 39, replacement1).
Proof.
  split; [reflexivity|].
  rewrite (variants_agree_on_one_prefix
             0 attribute1 "p-4 sm:p-8 text-center" 15 39);
    [reflexivity | reflexivity | vm_compute; lia].
Defined.

(** ** The scanned text, the import line and the empty batch *)

(** X16.  With a selection that lies in the document, the scanned text is
    the text of the document between the two offsets: it has that length,
    and its character [i] is the character [i + startOffset] of the
    document, so a position in the scanned text moved by the offset is the
    position of the same character in the document. *)
Theorem selection_text_is_a_slice (editor : TextEditor) (a b : nat) :
  isEmpty (selection editor) = false ->
  offsetAt (document editor) (selStart (selection editor)) = Ok a ->
  offsetAt (document editor) (selEnd (selection editor)) = Ok b ->
  a <= b -> b <= String.length (docText (document editor)) ->
  exists sourceText,
    selectSource editor = Ok (sourceText, a)
    /\ String.length sourceText = b - a
    /\ forall i, i < b - a ->
                 String.get i sourceText
                 = String.get (i + a) (docText (document editor)).
Proof.
  intros He Ha Hb Hab Hlen.
  exists (JS.substring (docText (document editor)) a b).
  unfold selectSource, JS.substring. rewrite He, Ha. simpl. rewrite Hb. simpl.
  rewrite Nat.min_l, Nat.max_r by assumption.
  split; [reflexivity|]. split.
  - apply length_substring. lia.
  - intros i Hi. now apply substring_correct1.
Qed.

Lemma selection_text_is_a_slice_witness :
  selectSource editor3 = Ok (doc1Text, 13)
  /\ exists sourceText,
       selectSource editor3 = Ok (sourceText, 13)
       /\ String.length sourceText = 55 - 13
       /\ forall i, i < 55 - 13 ->
                    String.get i sourceText
                    = String.get (i + 13) (docText (document editor3)).
Proof.
  split; [reflexivity|].
  apply (selection_text_is_a_slice editor3 13 55);
    try reflexivity; vm_compute; lia.
Defined.

Lemma includes_spec (text pat : string) :
  JS.includes text pat = true
  <-> exists pre post, text = (pre ++ pat ++ post)%string.
Proof.
  induction text as [|c r IH].
  - change (JS.includes EmptyString pat)
      with (String.prefix pat EmptyString || false).
    rewrite orb_false_r, prefix_split. split.
    + intros [post H]. exists EmptyString, post. exact H.
    + intros (pre & post & H). destruct pre; [|discriminate].
      exists post. exact H.
  - change (JS.includes (String c r) pat)
      with (String.prefix pat (String c r) || JS.includes r pat).
    rewrite orb_true_iff, prefix_split, IH. split.
    + intros [[post H]|(pre & post & H)].
      * exists EmptyString, post. exact H.
      * exists (String c pre), post. simpl. now rewrite H.
    + intros (pre & post & H). destruct pre as [|d pre].
      * left. exists post. exact H.
      * right. simpl in H. inversion H. exists pre, post. reflexivity.
Qed.

(** X17.  The import edit is added exactly when the import line occurs
    nowhere in the text of the document, whatever stands before and after
    it; a document that begins with what the edit inserts gets none. *)
Theorem import_is_inserted_unless_present (document : TextDocument)
    (workspaceEdit : WorkspaceEdit) :
  ((exists pre post,
       docText document = (pre ++ importStatement ++ post)%string) ->
   ensureImportStatement document workspaceEdit = workspaceEdit)
  /\ (~ (exists pre post,
            docText document = (pre ++ importStatement ++ post)%string) ->
      ensureImportStatement document workspaceEdit
      = workspaceEdit
        ++ [Insert (mkPosition 0 0) (importStatement ++ LF)%string])
  /\ (forall rest,
         docText document = ((importStatement ++ LF) ++ rest)%string ->
         ensureImportStatement document workspaceEdit = workspaceEdit).
Proof.
  unfold ensureImportStatement. split; [|split].
  - intros H. apply includes_spec in H. now rewrite H.
  - intros H. destruct (JS.includes (docText document) importStatement) eqn:E;
      [|reflexivity].
    apply includes_spec in E. contradiction.
  - intros rest H.
    assert (E : JS.includes (docText document) importStatement = true).
    { apply includes_spec. exists EmptyString, (LF ++ rest)%string.
      rewrite H, append_assoc. reflexivity. }
    now rewrite E.
Qed.

Lemma collectEdits_nothing (host : Host) (editor : TextEditor)
    (sourceText : string) (offset : nat) (sourceFile : Node) :
  selectSource editor = Ok (sourceText, offset) ->
  createSourceFile host sourceText = Ok sourceFile ->
  plannedEdits offset (findClassNames sourceFile) = [] ->
  collectEdits host editor = Ok [].
Proof.
  intros Hs Hp Hpl. unfold collectEdits. rewrite Hs. simpl. rewrite Hp. simpl.
  now rewrite forOf_loopBody, Hpl.
Qed.

(** X18.  When no attribute of the scanned text holds a media class, the
    batch is empty: nothing is replaced and no import line is inserted,
    also in a document without the import line, and the command still calls
    [applyEdit], with the empty batch. *)
Theorem nothing_to_rewrite_gives_empty_batch (host : Host)
    (editor : TextEditor) (sourceText : string) (offset : nat)
    (sourceFile : Node) :
  selectSource editor = Ok (sourceText, offset) ->
  createSourceFile host sourceText = Ok sourceFile ->
  (forall n classNames s e,
      In n (findClassNames sourceFile) ->
      extractClassNames n = Some (classNames, s, e) ->
      Forall (fun cls => findPrefix cls = None) classNames) ->
  collectEdits host editor = Ok []
  /\ (forall b, applyEdit host [] = Ok b ->
                extractTailwindClasses host (Some editor) = [ApplyEdit []]).
Proof.
  intros Hs Hp Hall.
  assert (H : collectEdits host editor = Ok []).
  { apply (collectEdits_nothing _ _ _ _ _ Hs Hp). unfold plannedEdits.
    induction (findClassNames sourceFile) as [|n ns IH]; [reflexivity|].
    simpl. rewrite IH by (intros; eapply Hall; eauto; now right).
    unfold plannedEdit.
    destruct (extractClassNames n) as [[[cls s] e]|] eqn:Ex; [|reflexivity].
    assert (E : rewriteClassNames cls = None).
    { apply rewriteClassNames_None. eapply Hall; [now left | eassumption]. }
    now rewrite E. }
  split; [exact H|]. intros b Hb. unfold extractTailwindClasses.
  now rewrite H, Hb.
Qed.

Lemma nothing_to_rewrite_gives_empty_batch_witness :
  JS.includes doc5Text importStatement = false
  /\ collectEdits demoHost5 editor5 = Ok []
  /\ extractTailwindClasses demoHost5 (Some editor5) = [ApplyEdit []].
Proof.
  split; [reflexivity|].
  destruct (nothing_to_rewrite_gives_empty_batch
              demoHost5 editor5 doc5Text 0 ast5) as [H1 H2];
    [reflexivity | reflexivity | | ].
  - intros n classNames s e Hn Hx. simpl in Hn.
    destruct Hn as [<-|[]]. vm_compute in Hx. inversion Hx.
    repeat constructor.
  - split; [exact H1 | apply (H2 true); reflexivity].
Defined.

(** X19.  The earlier variant never touches a value that is not a string
    literal: on a text whose className values are all of another shape,
    such as the calls of twJoin that a run leaves behind, its batch is
    empty. *)
Theorem literal_variant_skips_calls (host : Host) (editor : TextEditor)
    (sourceText : string) (offset : nat) (sourceFile : Node) :
  selectSource editor = Ok (sourceText, offset) ->
  createSourceFile host sourceText = Ok sourceFile ->
  (forall n, In n (findClassNames sourceFile) -> hasLiteralValue n = false) ->
  LiteralOnlyCommand.collectEdits host editor = Ok []
  /\ (forall b, applyEdit host [] = Ok b ->
                LiteralOnlyCommand.extractTailwindClasses host (Some editor)
                = [ApplyEdit []]).
Proof.
  intros Hs Hp Hall.
  assert (H : LiteralOnlyCommand.collectEdits host editor = Ok []).
  { unfold LiteralOnlyCommand.collectEdits. rewrite Hs. simpl. rewrite Hp.
    simpl. rewrite literal_scan_filter, (filter_none _ _ Hall). reflexivity. }
  split; [exact H|]. intros b Hb.
  unfold LiteralOnlyCommand.extractTailwindClasses. now rewrite H, Hb.
Qed.

Lemma literal_variant_skips_calls_witness :
  LiteralOnlyCommand.collectEdits demoHost editor1 = Ok batch1
  /\ applyEdits doc1Text batch1 = doc2Text
  /\ LiteralOnlyCommand.collectEdits demoHost editor2 = Ok [].
Proof.
  split; [reflexivity|]. split; [reflexivity|].
  apply (literal_variant_skips_calls demoHost editor2 doc2Text 0 ast2);
    try reflexivity.
  intros n Hn. simpl in Hn. destruct Hn as [<-|[]]. reflexivity.
Defined.

(** ** Where the edits lie *)

(** X20.  In a tree that the parser built for the scanned text, every
    planned edit lies inside the scanned text moved by the offset: with a
    selection, nothing outside the selection is replaced. *)
Theorem edits_stay_in_the_scanned_text (sourceText : string) (offset : nat)
    (sourceFile : Node) :
  wellFormed sourceText sourceFile = true ->
  Forall (fun x => offset <= fst (fst x)
                   /\ fst (fst x) <= snd (fst x)
                   /\ snd (fst x) <= offset + String.length sourceText)
         (plannedEdits offset (findClassNames sourceFile)).
Proof.
  intros Hwf.
  pose proof (node_edits_bounds sourceText offset _ Hwf) as Hin.
  destruct (wellFormed_children _ _ Hwf) as (Hloc & _ & _).
  unfold locOk in Hloc. rewrite !andb_true_iff, !Nat.leb_le in Hloc.
  destruct Hloc as [[_ Hend] _].
  eapply Forall_impl; [|exact Hin]. intros [[s e] t] (H1 & H2 & H3).
  simpl in *. unfold getEnd in H3. lia.
Qed.

Lemma edits_stay_in_the_scanned_text_witness :
  wellFormed doc4Text ast4 = true
  /\ map fst (plannedEdits 7 (findClassNames ast4)) = [(20, 28); (46, 52)]
  /\ Forall (fun x => 7 <= fst (fst x)
                      /\ fst (fst x) <= snd (fst x)
                      /\ snd (fst x) <= 7 + String.length doc4Text)
            (plannedEdits 7 (findClassNames ast4)).
Proof.
  split; [reflexivity|]. split; [reflexivity|].
  apply (edits_stay_in_the_scanned_text doc4Text 7 ast4). reflexivity.
Defined.

Lemma inOrder_spans (es es' : list (nat * nat * string)) :
  map fst es = map fst es' -> inOrder es -> inOrder es'.
Proof.
  revert es'. induction es as [|[[s e] t] es IH]; intros es' Hm H.
  - destruct es'; [exact I | discriminate].
  - destruct es' as [|[[s' e'] t'] es']; [discriminate|].
    simpl in Hm. inversion Hm; subst. simpl in H |- *.
    destruct H as (Hse & Hall & Hord). split; [assumption|].
    split; [|now apply IH].
    apply Forall_forall. intros x Hx.
    assert (Hf : In (fst x) (map fst es')) by now apply in_map.
    rewrite <- H3 in Hf. apply in_map_iff in Hf. destruct Hf as (y & Hy & Hin).
    rewrite Forall_forall in Hall. specialize (Hall y Hin).
    now rewrite <- Hy.
Qed.

Lemma literal_rewrite_None_iff (text : string) :
  LiteralOnlyCommand.rewriteClassNameText text = None
  <-> rewriteClassNames (JS.split text) = None.
Proof.
  rewrite rewriteClassNames_None, <- media_empty_iff, rewriteClassNameText_spec.
  destruct (filter (fun cls => negb (isBase cls)) (JS.split text));
    split; congruence.
Qed.

Lemma literal_spans_agree (offset : nat) (ns : list Node) :
  Forall (fun a => hasLiteralValue a = true) ns ->
  map fst (LiteralOnlyCommand.plannedEdits offset ns)
  = map fst (plannedEdits offset ns).
Proof.
  unfold LiteralOnlyCommand.plannedEdits, plannedEdits.
  induction 1 as [|a ns Ha _ IH]; [reflexivity|]. simpl.
  rewrite !map_app, IH. f_equal.
  unfold LiteralOnlyCommand.plannedEdit, plannedEdit.
  destruct a as [| | | |l nm [i|]|]; try discriminate. simpl in Ha.
  assert (Hx : exists text s e,
             LiteralOnlyCommand.extractClassNameText
               (JsxAttribute l nm (Some i)) = Some (text, s, e)).
  { destruct i as [|l1 t|l1 d1 [x|]| | |]; try discriminate; simpl.
    - eauto.
    - destruct x; try discriminate. eauto. }
  destruct Hx as (text & s & e & Hx).
  rewrite Hx, (literal_extract_agrees _ _ _ _ Hx).
  pose proof (literal_rewrite_None_iff text) as [H1 H2].
  destruct (LiteralOnlyCommand.rewriteClassNameText text) as [t1|];
    destruct (rewriteClassNames (JS.split text)) as [t2|]; try reflexivity.
  - specialize (H2 eq_refl). discriminate.
  - specialize (H1 eq_refl). discriminate.
Qed.

Lemma literal_value_is_flat (n : Node) :
  hasLiteralValue n = true -> hasFlatValue n = true.
Proof.
  destruct n as [| | | |l nm [init|]|]; try reflexivity.
  destruct init as [| |l1 d1 [x|]| | |]; try reflexivity.
  destruct x; try reflexivity. discriminate.
Qed.

(** X21.  The edits of the earlier variant lie on the same spans as the
    edits of the later one for the attributes it takes, so in a tree that
    the parser built they come in document order and do not overlap
    either. *)
Theorem literal_variant_edits_do_not_overlap (sourceText : string)
    (offset : nat) (sourceFile : Node) :
  wellFormed sourceText sourceFile = true ->
  map fst (LiteralOnlyCommand.plannedEdits
             offset (LiteralOnlyCommand.findClassNames sourceFile))
  = map fst (plannedEdits offset
               (filter hasLiteralValue (findClassNames sourceFile)))
  /\ inOrder (LiteralOnlyCommand.plannedEdits
                offset (LiteralOnlyCommand.findClassNames sourceFile)).
Proof.
  intros Hwf. rewrite literal_scan_filter.
  assert (Hs : map fst (LiteralOnlyCommand.plannedEdits offset
                          (filter hasLiteralValue (findClassNames sourceFile)))
               = map fst (plannedEdits offset
                            (filter hasLiteralValue (findClassNames sourceFile)))).
  { apply literal_spans_agree. apply Forall_forall. intros a Ha.
    apply filter_In in Ha. tauto. }
  split; [exact Hs|].
  apply (inOrder_spans _ _ (eq_sym Hs)).
  now apply (kept_edits_in_order sourceText offset hasLiteralValue
               literal_value_is_flat sourceFile).
Qed.

Lemma literal_variant_edits_do_not_overlap_witness :
  wellFormed doc4Text ast4 = true
  /\ map fst (LiteralOnlyCommand.plannedEdits
                7 (LiteralOnlyCommand.findClassNames ast4))
     = [(20, 28); (46, 52)]
  /\ inOrder (LiteralOnlyCommand.plannedEdits
                7 (LiteralOnlyCommand.findClassNames ast4)).
Proof.
  split; [reflexivity|]. split; [reflexivity|].
  apply (literal_variant_edits_do_not_overlap doc4Text 7 ast4). reflexivity.
Defined.
